(** * Quickcart (FreshCart): cart state model, checkout and order service

    A shallow embedding of the parts of [src/src/App.tsx] (the React client)
    and [src/server.ts] (the Express / SQLite service) that carry the
    storefront's logic, with the properties of the specification proved
    about them.

    Modelling conventions.
    - A JavaScript [number] that holds an identifier, a quantity or an amount
      of money is an integer of [Z]; the seeded catalogue only has whole
      prices, and quantities only ever move by one.
    - A JavaScript string is a [string]; the methods of the runtime that
      depend on the Unicode tables are taken through [Runtime].
    - React state updated through [setCart (prev => ...)] is a pure function
      from the previous cart to the next one.
    - [interface CartItem extends Product] is a record holding the product's
      fields and a quantity, with a coercion back to [Product]. *)

From Stdlib Require Import ZArith List String Ascii Bool Lia.
From Stdlib Require Import Sorted Permutation.
Import ListNotations.

Local Open Scope string_scope.
Local Open Scope Z_scope.
Local Open Scope list_scope.

(** ** Data model of the client ([src/src/App.tsx]) *)

Record Product : Type := mkProduct {
  id : Z;
  name : string;
  category : string;
  price : Z;
  image : string;
  stock : Z;
  description : string
}.

(** [{ ...p, quantity: q }] is [mkCartItem p q]. *)
Record CartItem : Type := mkCartItem {
  product :> Product;
  quantity : Z
}.

Record UserData : Type := mkUserData {
  user_id : Z;
  user_email : string;
  user_name : string
}.

Definition Cart : Type := list CartItem.

(** ** Cart mutations *)

(** [item => item.id === productId] *)
Definition has_id (productId : Z) (item : CartItem) : bool :=
  id item =? productId.

(** [{ ...item, quantity: item.quantity + d }] *)
Definition bump (d : Z) (item : CartItem) : CartItem :=
  mkCartItem (product item) (quantity item + d).

(** [item => item.id === productId ? { ...item, quantity: item.quantity + d } : item] *)
Definition on_line (productId d : Z) (item : CartItem) : CartItem :=
  if has_id productId item then bump d item else item.

(** The updater passed to [setCart] by [addToCart]. *)
Definition addToCart (p : Product) (prev : Cart) : Cart :=
  match find (has_id (id p)) prev with
  | Some _existing =>
      map (on_line (id p) 1) prev
  | None => prev ++ [mkCartItem p 1]
  end.

(** The updater passed to [setCart] by [removeFromCart]:
    [existing && existing.quantity > 1] guards the decrement, every other
    case falls through to the [filter]. *)
Definition removeFromCart (productId : Z) (prev : Cart) : Cart :=
  let existing := find (has_id productId) prev in
  if match existing with
     | Some e => 1 <? quantity e
     | None => false
     end
  then map (on_line productId (-1)) prev
  else filter (fun item => negb (has_id productId item)) prev.

(** [cart.reduce((sum, item) => sum + item.price * item.quantity, 0)] *)
Definition cartTotal (cart : Cart) : Z :=
  fold_left (fun sum (item : CartItem) => sum + price item * quantity item) cart 0.

(** [cart.reduce((sum, item) => sum + item.quantity, 0)] *)
Definition cartCount (cart : Cart) : Z :=
  fold_left (fun sum (item : CartItem) => sum + quantity item) cart 0.

(** A user action on the cart, and the cart after a sequence of them. *)
Inductive CartAction : Type :=
| AddLine (p : Product)
| RemoveLine (productId : Z).

Definition step (cart : Cart) (a : CartAction) : Cart :=
  match a with
  | AddLine p => addToCart p cart
  | RemoveLine productId => removeFromCart productId cart
  end.

(** [useState<CartItem[]>([])]: the session starts with the empty cart. *)
Definition run (actions : list CartAction) : Cart :=
  fold_left step actions [].

(** The invariant of the data model: one line per product id, and no line
    with a quantity below one. *)
Definition ids (cart : Cart) : list Z := map (fun item : CartItem => id item) cart.

Definition CartInv (cart : Cart) : Prop :=
  NoDup (ids cart) /\ Forall (fun item => 1 <= quantity item) cart.

(** The sum the specification writes as a sigma over the lines. *)
Fixpoint sum_lines (f : CartItem -> Z) (cart : Cart) : Z :=
  match cart with
  | [] => 0
  | item :: rest => f item + sum_lines f rest
  end.

(** ** Product discovery ([HomePage], [filteredProducts]) *)

(** *** Strings of the runtime

    [String.prototype.toLowerCase] and [String.prototype.trim] are methods
    of the JavaScript runtime, not code of the repository, and they follow
    the Unicode tables. They are taken as given: the embedding calls them
    through [Runtime] and relies only on what [RuntimeSpec] records, which
    is how they act on ASCII text and that [trim] drops a leading space. A
    string outside ASCII is carried in its UTF-8 bytes, so that equality,
    [includes], [split] and [join] mean on the bytes what they mean on the
    text. *)
Class Runtime : Type := {
  toLowerCase : string -> string;
  trim : string -> string
}.

(** The ASCII case fold: A-Z to a-z, every other character kept. SQLite's
    [LIKE] compares letters through it. *)
Definition lower_char (c : ascii) : ascii :=
  let n := nat_of_ascii c in
  if (65 <=? n)%nat && (n <=? 90)%nat then ascii_of_nat (n + 32) else c.

Fixpoint ascii_lower (s : string) : string :=
  match s with
  | EmptyString => EmptyString
  | String c rest => String (lower_char c) (ascii_lower rest)
  end.

(** Text all of whose characters are ASCII. *)
Fixpoint ascii_text (s : string) : bool :=
  match s with
  | EmptyString => true
  | String c rest => (nat_of_ascii c <? 128)%nat && ascii_text rest
  end.

(** The white space of ASCII: tab, line feed, vertical tab, form feed,
    carriage return and space. *)
Definition is_space (c : ascii) : bool :=
  let n := nat_of_ascii c in
  ((9 <=? n)%nat && (n <=? 13)%nat) || (n =? 32)%nat.

Fixpoint trimStart (s : string) : string :=
  match s with
  | EmptyString => EmptyString
  | String c rest => if is_space c then trimStart rest else s
  end.

Fixpoint trimEnd (s : string) : string :=
  match s with
  | EmptyString => EmptyString
  | String c rest =>
      match trimEnd rest with
      | EmptyString => if is_space c then EmptyString else String c EmptyString
      | String d kept => String c (String d kept)
      end
  end.

Definition ascii_trim (s : string) : string := trimEnd (trimStart s).

(** What the embedding relies on about the two methods. *)
Record RuntimeSpec (rt : Runtime) : Prop := mkRuntimeSpec {
  toLowerCase_ascii :
    forall s, ascii_text s = true -> toLowerCase s = ascii_lower s;
  trim_ascii :
    forall s, ascii_text s = true -> trim s = ascii_trim s;
  trim_leading_space :
    forall s, trim (String " " s) = trim s
}.

(** The two methods cut down to their action on ASCII, to run examples. *)
Definition ascii_runtime : Runtime :=
  {| toLowerCase := ascii_lower; trim := ascii_trim |}.

(** Two characters that are the same letter of ASCII in either case, and
    two strings that are so character by character. *)
Definition same_letter (c d : ascii) : Prop :=
  c = d \/
  ((65 <= nat_of_ascii c <= 90)%nat /\
   nat_of_ascii d = (nat_of_ascii c + 32)%nat) \/
  ((65 <= nat_of_ascii d <= 90)%nat /\
   nat_of_ascii c = (nat_of_ascii d + 32)%nat).

Inductive same_letters : string -> string -> Prop :=
| same_letters_nil : same_letters EmptyString EmptyString
| same_letters_cons (c d : ascii) (s t : string) :
    same_letter c d -> same_letters s t ->
    same_letters (String c s) (String d t).

(** [s.includes(sub)]: [sub] occurs in [s] at some position. *)
Fixpoint includes (s sub : string) : bool :=
  prefix sub s ||
  match s with
  | EmptyString => false
  | String _ rest => includes rest sub
  end.

Definition matchesCategory (activeCategory : string) (p : Product) : bool :=
  (activeCategory =? "All")%string || (category p =? activeCategory)%string.

Section Discovery.

Context {rt : Runtime}.

Definition matchesSearch (searchQuery : string) (p : Product) : bool :=
  includes (toLowerCase (name p)) (toLowerCase searchQuery) ||
  includes (toLowerCase (category p)) (toLowerCase searchQuery).

Definition filteredProducts (products : list Product)
    (searchQuery activeCategory : string) : list Product :=
  filter (fun p => matchesSearch searchQuery p && matchesCategory activeCategory p)
         products.

(** The specification's wording, to compare [filteredProducts] with: a
    case-insensitive substring match, that is, [q] occurs in [s] once both
    are put in lower case. *)
Definition contains_ci (s q : string) : Prop :=
  exists before after : string,
    toLowerCase s = (before ++ toLowerCase q ++ after)%string.

Definition search_spec (products : list Product)
    (searchQuery activeCategory : string) (p : Product) : Prop :=
  In p products /\
  (contains_ci (name p) searchQuery \/ contains_ci (category p) searchQuery) /\
  (activeCategory = "All" \/ category p = activeCategory).

End Discovery.

(** On ASCII text the match can be said without lower-casing: a part of
    [s] is [q] letter by letter, the case of a letter set aside. *)
Definition contains_letters (s q : string) : Prop :=
  exists before w after : string,
    s = (before ++ w ++ after)%string /\ same_letters w q.

(** ** Checkout ([CheckoutPage], [handlePlaceOrder]) *)

(** The JSON body of [POST /api/orders] as the client builds it. *)
Record OrderRequest : Type := mkOrderRequest {
  userId : Z;
  items : Cart;
  total : Z
}.

(** What [await fetch(...)] yields: a rejected promise, or a response with
    its HTTP status. *)
Inductive FetchOutcome : Type :=
| Rejected
| Responded (status : Z).

(** [res.ok] *)
Definition ok (status : Z) : bool := (200 <=? status) && (status <=? 299).

(** The state the checkout touches: the cart of [App], the router's
    location and the page's [isPlacingOrder] flag. *)
Record AppState : Type := mkAppState {
  cart : Cart;
  location : string;
  isPlacingOrder : bool
}.

Definition navigate (to : string) (st : AppState) : AppState :=
  mkAppState (cart st) to (isPlacingOrder st).

Definition setIsPlacingOrder (b : bool) (st : AppState) : AppState :=
  mkAppState (cart st) (location st) b.

(** [onOrderSuccess={() => setCart([])}] *)
Definition onOrderSuccess (st : AppState) : AppState :=
  mkAppState [] (location st) (isPlacingOrder st).

(** [handlePlaceOrder]; the second component is the request that went out,
    if one did. *)
Definition handlePlaceOrder (user : option UserData)
    (fetch : OrderRequest -> FetchOutcome) (st : AppState)
  : AppState * option OrderRequest :=
  match user with
  | None => (navigate "/auth" st, None)
  | Some u =>
      let st1 := setIsPlacingOrder true st in
      let request := mkOrderRequest (user_id u) (cart st) (cartTotal (cart st) + 2) in
      let st2 :=
        match fetch request with
        | Responded status =>
            if ok status then navigate "/success" (onOrderSuccess st1) else st1
        | Rejected => st1
        end in
      (setIsPlacingOrder false st2, Some request)
  end.

(** [CheckoutPage] shows the order form, and with it the button bound to
    [handlePlaceOrder], only when [cart.length !== 0]. *)
Inductive CheckoutView : Type :=
| EmptyCartView
| OrderForm.

Definition CheckoutPage (c : Cart) : CheckoutView :=
  if (List.length c =? 0)%nat then EmptyCartView else OrderForm.

Definition placeOrder (user : option UserData)
    (fetch : OrderRequest -> FetchOutcome) (st : AppState)
  : AppState * option OrderRequest :=
  match CheckoutPage (cart st) with
  | EmptyCartView => (st, None)
  | OrderForm => handlePlaceOrder user fetch st
  end.

(** The order service confirmed the order: a user is signed in and the
    response to the request has a 2xx status. *)
Definition order_confirmed (user : option UserData)
    (fetch : OrderRequest -> FetchOutcome) (st : AppState) : Prop :=
  exists u status,
    user = Some u /\
    fetch (mkOrderRequest (user_id u) (cart st) (cartTotal (cart st) + 2))
      = Responded status /\
    200 <= status <= 299.

(** ** The order service ([src/server.ts]) *)

Module Server.

(** Rows of the tables created by the [CREATE TABLE] statements. *)
Record UserRow : Type := mkUserRow {
  users_id : Z;
  users_email : string;
  users_password : string;
  users_name : string
}.

Record OrderRow : Type := mkOrderRow {
  orders_id : Z;
  orders_user_id : Z;
  orders_total : Z;
  orders_status : string;
  orders_created_at : Z
}.

Record OrderItemRow : Type := mkOrderItemRow {
  order_items_id : Z;
  order_items_order_id : Z;
  order_items_product_id : Z;
  order_items_quantity : Z;
  order_items_price : Z
}.

(** The database file: the three tables the handlers write, each with the
    counter behind its [AUTOINCREMENT] key. *)
Record Database : Type := mkDatabase {
  users : list UserRow;
  orders : list OrderRow;
  order_items : list OrderItemRow;
  seq_users : Z;
  seq_orders : Z;
  seq_order_items : Z
}.

Definition empty_db : Database := mkDatabase [] [] [] 0 0 0.

(** JavaScript exceptions the handlers can meet. *)
Inductive Exn : Type :=
| TypeError (message : string)
| SqliteError (message : string).

Definition message_of (e : Exn) : string :=
  match e with
  | TypeError m => m
  | SqliteError m => m
  end.

Inductive Outcome (A : Type) : Type :=
| Returned (a : A)
| Thrown (e : Exn).
Arguments Returned {A} a.
Arguments Thrown {A} e.

(** A handler body: it runs against the database and either returns or
    throws. No statement runs inside a transaction, so what was written
    before a throw stays written. *)
Definition DB (A : Type) : Type := Database -> Database * Outcome A.

Definition ret {A : Type} (a : A) : DB A := fun db => (db, Returned a).

Definition throw {A : Type} (e : Exn) : DB A := fun db => (db, Thrown e).

Definition bind {A B : Type} (m : DB A) (k : A -> DB B) : DB B :=
  fun db =>
    match m db with
    | (db', Returned a) => k a db'
    | (db', Thrown e) => (db', Thrown e)
    end.

(** [try { m } catch (err) { handler err }] *)
Definition try_catch {A : Type} (m : DB A) (handler : Exn -> DB A) : DB A :=
  fun db =>
    match m db with
    | (db', Returned a) => (db', Returned a)
    | (db', Thrown e) => handler e db'
    end.

Notation "x <- m ;; k" := (bind m (fun x => k))
  (at level 61, m at next level, right associativity).

(** [xs.forEach(f)] *)
Fixpoint forEach {A : Type} (f : A -> DB unit) (xs : list A) : DB unit :=
  match xs with
  | [] => ret tt
  | x :: rest => _ <- f x ;; forEach f rest
  end.

(** The key an [INTEGER PRIMARY KEY AUTOINCREMENT] column gives a new row:
    one more than the largest key the table has ever held. *)
Definition next_rowid (seq : Z) (rowids : list Z) : Z :=
  fold_left Z.max rowids seq + 1.

(** [INSERT INTO orders (user_id, total) VALUES (?, ?)]: [status] and
    [created_at] take their column defaults. Yields [lastInsertRowid]. *)
Definition insert_order (user_id total now : Z) : DB Z :=
  fun db =>
    let rowid := next_rowid (seq_orders db) (map orders_id (orders db)) in
    (mkDatabase (users db)
                (orders db ++ [mkOrderRow rowid user_id total "pending" now])
                (order_items db)
                (seq_users db) rowid (seq_order_items db),
     Returned rowid).

(** [INSERT INTO order_items (order_id, product_id, quantity, price)
    VALUES (?, ?, ?, ?)] *)
Definition insertItem (order_id product_id quantity price : Z) : DB unit :=
  fun db =>
    let rowid :=
      next_rowid (seq_order_items db) (map order_items_id (order_items db)) in
    (mkDatabase (users db) (orders db)
                (order_items db ++
                   [mkOrderItemRow rowid order_id product_id quantity price])
                (seq_users db) (seq_orders db) rowid,
     Returned tt).

(** [INSERT INTO users (email, password, name) VALUES (?, ?, ?)] under the
    [email TEXT UNIQUE] constraint. *)
Definition insert_user (email password name : string) : DB Z :=
  fun db =>
    if existsb (fun u => (users_email u =? email)%string) (users db)
    then (db, Thrown (SqliteError "UNIQUE constraint failed: users.email"))
    else
      let rowid := next_rowid (seq_users db) (map users_id (users db)) in
      (mkDatabase (users db ++ [mkUserRow rowid email password name])
                  (orders db) (order_items db)
                  rowid (seq_orders db) (seq_order_items db),
       Returned rowid).

(** [SELECT id, email, name FROM users WHERE id = ?] with [.get] *)
Definition select_user (rowid : Z) : DB (option UserData) :=
  fun db =>
    (db,
     Returned
       (option_map
          (fun u => mkUserData (users_id u) (users_email u) (users_name u))
          (find (fun u => users_id u =? rowid) (users db)))).

(** Response bodies the two handlers send, and the page of Express's
    default error handler for an exception that escapes a handler. *)
Inductive Body : Type :=
| OrderCreated (success : bool) (orderId : Z)
| UserCreated (success : bool) (user : option UserData)
| Failure (success : bool) (message : string)
| ErrorPage (e : Exn).

Record Response : Type := mkResponse {
  status : Z;
  body : Body
}.

(** [res.json(b)] and [res.status(code).json(b)] *)
Definition json (b : Body) : Response := mkResponse 200 b.
Definition status_json (code : Z) (b : Body) : Response := mkResponse code b.

(** [req.body] of [POST /api/orders]. [userId] may be missing; an element
    of [items] is an object or JSON [null]. *)
Record OrdersBody : Type := mkOrdersBody {
  userId : option Z;
  items : list (option CartItem);
  total : Z
}.

(** [userId || 1] *)
Definition userId_or_1 (userId : option Z) : Z :=
  match userId with
  | Some u => if u =? 0 then 1 else u
  | None => 1
  end.

(** [(item: any) => { insertItem.run(orderId, item.id, item.quantity,
    item.price); }]: reading a property of [null] throws. *)
Definition insert_line (orderId : Z) (item : option CartItem) : DB unit :=
  match item with
  | Some i => insertItem orderId (id i) (quantity i) (price i)
  | None => throw (TypeError "Cannot read properties of null (reading 'id')")
  end.

(** [app.post("/api/orders", ...)] *)
Definition post_orders (req : OrdersBody) (now : Z) : DB Response :=
  orderId <- insert_order (userId_or_1 (userId req)) (total req) now ;;
  _ <- forEach (insert_line orderId) (items req) ;;
  ret (json (OrderCreated true orderId)).

(** [req.body] of [POST /api/register]: the three text fields the sign-up
    form of [AuthPage] sends. *)
Record RegisterBody : Type := mkRegisterBody {
  email : string;
  password : string;
  name : string
}.

(** [app.post("/api/register", ...)] *)
Definition post_register (req : RegisterBody) : DB Response :=
  try_catch
    (rowid <- insert_user (email req) (password req) (name req) ;;
     user <- select_user rowid ;;
     ret (json (UserCreated true user)))
    (fun err =>
       if includes (message_of err) "UNIQUE constraint failed"
       then ret (status_json 400 (Failure false "Email already exists"))
       else ret (status_json 500 (Failure false "Server error"))).

(** Express runs a handler; an exception that escapes it becomes a 500. *)
Definition handle (h : DB Response) (db : Database) : Database * Response :=
  match h db with
  | (db', Returned r) => (db', r)
  | (db', Thrown e) => (db', mkResponse 500 (ErrorPage e))
  end.

(** The items of a request up to its first [null], and whether there is
    none. *)
Fixpoint accepted (xs : list (option CartItem)) : list CartItem :=
  match xs with
  | Some i :: rest => i :: accepted rest
  | _ => []
  end.

Definition all_present (xs : list (option CartItem)) : bool :=
  forallb (fun x => match x with Some _ => true | None => false end) xs.

(** The [order_items] rows of the lines [xs] of order [orderId], numbered
    from [rowid] on. *)
Fixpoint item_rows (orderId rowid : Z) (xs : list CartItem) : list OrderItemRow :=
  match xs with
  | [] => []
  | i :: rest =>
      mkOrderItemRow rowid orderId (id i) (quantity i) (price i)
        :: item_rows orderId (rowid + 1) rest
  end.

(** The specification's atomicity: a request that is not answered with
    success leaves no row behind. *)
Definition createOrder_atomic : Prop :=
  forall (req : OrdersBody) (now : Z) (db : Database),
    let '(db', r) := handle (post_orders req now) db in
    status r <> 200 ->
    orders db' = orders db /\ order_items db' = order_items db.

(** [req.body] of [POST /api/login] *)
Record LoginBody : Type := mkLoginBody {
  login_email : string;
  login_password : string
}.

(** [SELECT id, email, name FROM users WHERE email = ? AND password = ?]
    with [.get]: the first matching row. *)
Definition select_credentials (email password : string) : DB (option UserData) :=
  fun db =>
    (db,
     Returned
       (option_map
          (fun u => mkUserData (users_id u) (users_email u) (users_name u))
          (find (fun u => (users_email u =? email)%string
                          && (users_password u =? password)%string)
                (users db)))).

(** [app.post("/api/login", ...)] *)
Definition post_login (req : LoginBody) : DB Response :=
  user <- select_credentials (login_email req) (login_password req) ;;
  match user with
  | Some u => ret (json (UserCreated true (Some u)))
  | None => ret (status_json 401 (Failure false "Invalid email or password"))
  end.

(** [ORDER BY created_at DESC]: insertion into a list that is already in
    descending order. Rows with equal timestamps keep the table's order. *)
Fixpoint insert_desc (row : OrderRow) (sorted : list OrderRow) : list OrderRow :=
  match sorted with
  | [] => [row]
  | r :: rest =>
      if orders_created_at r <=? orders_created_at row
      then row :: r :: rest
      else r :: insert_desc row rest
  end.

Definition order_by_created_at_desc (rows : list OrderRow) : list OrderRow :=
  fold_right insert_desc [] rows.

(** The order of the listing: [a] may stand before [b]. *)
Definition newer_first (a b : OrderRow) : Prop :=
  orders_created_at b <= orders_created_at a.

(** [SELECT * FROM orders WHERE user_id = ? ORDER BY created_at DESC],
    the array [app.get("/api/orders/user/:userId", ...)] answers with. *)
Definition get_orders_user (userId : Z) : DB (list OrderRow) :=
  fun db =>
    (db,
     Returned
       (order_by_created_at_desc
          (filter (fun o => orders_user_id o =? userId) (orders db)))).

(** A request to one of the writing routes, and the database after serving
    a sequence of them. *)
Inductive Request : Type :=
| Register (req : RegisterBody)
| Login (req : LoginBody)
| CreateOrder (req : OrdersBody) (now : Z).

Definition serve (db : Database) (r : Request) : Database * Response :=
  match r with
  | Register req => handle (post_register req) db
  | Login req => handle (post_login req) db
  | CreateOrder req now => handle (post_orders req now) db
  end.

Definition serve_all (requests : list Request) (db : Database) : Database :=
  fold_left (fun d r => fst (serve d r)) requests db.

(** Keys are never reused, emails are never shared, and every stored item
    row points at a stored order. *)
Definition db_consistent (db : Database) : Prop :=
  NoDup (map users_id (users db)) /\
  NoDup (map users_email (users db)) /\
  NoDup (map orders_id (orders db)) /\
  NoDup (map order_items_id (order_items db)) /\
  Forall (fun i => In (order_items_order_id i) (map orders_id (orders db)))
         (order_items db).

(** [JSON.stringify] of the client's request followed by [express.json()]:
    the body [POST /api/orders] reads. *)
Definition body_of_request (userId : Z) (items : Cart) (total : Z) : OrdersBody :=
  mkOrdersBody (Some userId) (map Some items) total.

End Server.

(** ** The catalogue routes of [src/server.ts] *)

(** SQLite's [LIKE] over the ASCII text the catalogue holds: [%] stands for
    any run of characters, [_] for any one character, and the letters of
    ASCII match without regard to case (other characters match as they
    are). *)
Fixpoint like (pattern s : string) : bool :=
  match pattern with
  | EmptyString =>
      match s with
      | EmptyString => true
      | String _ _ => false
      end
  | String c p =>
      if (c =? "%")%char
      then (fix any_run (t : string) : bool :=
              like p t ||
              match t with
              | EmptyString => false
              | String _ t' => any_run t'
              end) s
      else
        match s with
        | EmptyString => false
        | String d s' =>
            ((c =? "_")%char || (lower_char c =? lower_char d)%char) && like p s'
        end
  end.


(** [SELECT * FROM products WHERE name LIKE ? OR category LIKE ?] bound to
    [`%${q}%`] twice: the rows [app.get("/api/products/search", ...)]
    answers with, over the rows of the [products] table. *)
Definition get_products_search (q : string) (rows : list Product) : list Product :=
  let pattern := ("%" ++ q ++ "%")%string in
  filter (fun p => like pattern (name p) || like pattern (category p)) rows.

(** ** More of the client ([src/src/App.tsx]) *)

(** [cart.find(item => item.id === product.id)?.quantity], the number a
    product card and the detail page show between the minus and plus
    buttons; [None] when they show the add button instead. *)
Definition quantityInCart (productId : Z) (c : Cart) : option Z :=
  option_map quantity (find (has_id productId) c).

(** [new Set(xs)] adds the elements one by one and skips those it holds;
    [Array.from] lists them in insertion order. *)
Definition set_add (seen : list string) (x : string) : list string :=
  if existsb (String.eqb x) seen then seen else seen ++ [x].

Definition fromSet (xs : list string) : list string := fold_left set_add xs [].

(** [['All', ...Array.from(new Set(products.map(p => p.category)))]] *)
Definition categories (products : list Product) : list string :=
  "All" :: fromSet (map category products).

(** [s.split(sep)] for a one-character separator. *)
Fixpoint split (sep : ascii) (s : string) : list string :=
  match s with
  | EmptyString => [EmptyString]
  | String c rest =>
      if (c =? sep)%char then EmptyString :: split sep rest
      else
        match split sep rest with
        | [] => [String c EmptyString]
        | word :: words => String c word :: words
        end
  end.

(** [response.text?.split(',').map(s => s.trim()) || []] *)
Definition suggestions {rt : Runtime} (text : option string) : list string :=
  match text with
  | Some t => map trim (split "," t)
  | None => []
  end.

(** [cart.map(item => item.name).join(', ')] *)
Definition cartItems (c : Cart) : string :=
  String.concat ", " (map (fun item : CartItem => name item) c).

(** What the call to the text-generation service comes to: it throws, or it
    returns a response whose [text] may be missing. *)
Inductive AiOutcome : Type :=
| AiFailed
| AiResponse (text : option string).

(** [getAiRecommendations]: the next value of [aiRecommendations]. The
    service is asked about [cartItems]; on an exception the state is left
    as it is. *)
Definition getAiRecommendations {rt : Runtime} (ai : string -> AiOutcome) (c : Cart)
    (aiRecommendations : list string) : list string :=
  match ai (cartItems c) with
  | AiFailed => aiRecommendations
  | AiResponse text => suggestions text
  end.

(** The effect on [[cart]]: ask when the cart has lines, clear otherwise. *)
Definition onCartChange {rt : Runtime} (ai : string -> AiOutcome) (c : Cart)
    (aiRecommendations : list string) : list string :=
  if (0 <? List.length c)%nat
  then getAiRecommendations ai c aiRecommendations
  else [].

(** [fetch] of the checkout when the other end is the order service of
    [src/server.ts] holding the database [db] at time [now]. *)
Definition order_service (db : Server.Database) (now : Z) (request : OrderRequest)
  : Server.Database * Server.Response :=
  Server.handle
    (Server.post_orders
       (Server.body_of_request (userId request) (items request) (total request))
       now)
    db.

Definition fetch_order_service (db : Server.Database) (now : Z)
    (request : OrderRequest) : FetchOutcome :=
  Responded (Server.status (snd (order_service db now request))).

(** ** Signing in ([AuthPage], [handleAuthSuccess], [handleLogout]) *)

Module Auth.

(** The state of [AuthPage]. *)
Record Form : Type := mkForm {
  isLogin : bool;
  email : string;
  password : string;
  name : string;
  error : string;
  loading : bool
}.

(** [isLogin ? { email, password } : { email, password, name }] *)
Record Credentials : Type := mkCredentials {
  body_email : string;
  body_password : string;
  body_name : option string
}.

Inductive Endpoint : Type :=
| ApiLogin
| ApiRegister.

(** [data] after [await res.json()]: the fields [handleSubmit] reads. A
    missing [message] is the empty string, which [||] treats alike. *)
Record Data : Type := mkData {
  success : bool;
  user : option UserData;
  message : string
}.

(** What [fetch] and [res.json()] come to: one of them rejects (no network,
    or a body that is not JSON), or the body parses. *)
Inductive Reply : Type :=
| Failed
| Json (data : Data).

(** The part of [App]'s state that signing in touches: the [user] state,
    the [user] entry of [localStorage] and the router's location. The
    stored entry is [Some None] when it holds the text [undefined], which is
    what [JSON.stringify(undefined)] leaves there. *)
Record Session : Type := mkSession {
  current : option UserData;
  saved : option (option UserData);
  location : string
}.

(** [handleAuthSuccess] *)
Definition handleAuthSuccess (userData : option UserData) (s : Session) : Session :=
  mkSession userData (Some userData) (location s).

(** [handleLogout] *)
Definition handleLogout (s : Session) : Session :=
  mkSession None None "/".

(** The effect that runs when [App] mounts: a stored entry is parsed back
    into the [user] state; [JSON.parse] throws on the text [undefined]. *)
Definition onMount (s : Session) : option Session :=
  match saved s with
  | None => Some s
  | Some (Some u) => Some (mkSession (Some u) (saved s) (location s))
  | Some None => None
  end.

(** A page load: the [user] state starts as [null], then [onMount] runs. *)
Definition reload (s : Session) : option Session :=
  onMount (mkSession None (saved s) (location s)).

(** [data.message || 'Authentication failed'] *)
Definition message_or_default (m : string) : string :=
  if (m =? "")%string then "Authentication failed" else m.

(** [handleSubmit] *)
Definition handleSubmit (fetch : Endpoint -> Credentials -> Reply)
    (f : Form) (s : Session) : Form * Session :=
  let endpoint := if isLogin f then ApiLogin else ApiRegister in
  let body :=
    if isLogin f then mkCredentials (email f) (password f) None
    else mkCredentials (email f) (password f) (Some (name f)) in
  let settled (err : string) : Form :=
    mkForm (isLogin f) (email f) (password f) (name f) err false in
  match fetch endpoint body with
  | Json data =>
      if success data
      then (settled "",
            let s' := handleAuthSuccess (user data) s in
            mkSession (current s') (saved s') "/")
      else (settled (message_or_default (message data)), s)
  | Failed => (settled "Something went wrong. Please try again.", s)
  end.

(** The body of a response of [src/server.ts] as [res.json()] parses it.
    Express's error page is HTML, so parsing it fails. *)
Definition reply_of (r : Server.Response) : Reply :=
  match Server.body r with
  | Server.UserCreated ok_ u => Json (mkData ok_ u "")
  | Server.Failure ok_ m => Json (mkData ok_ None m)
  | Server.OrderCreated ok_ _ => Json (mkData ok_ None "")
  | Server.ErrorPage _ => Failed
  end.

(** The request a [fetch] to [endpoint] with [body] is for the service.
    [handleSubmit] always sends a [name] to the register route; the other
    shape is never produced and is filled with the empty text. *)
Definition request_of (endpoint : Endpoint) (body : Credentials) : Server.Request :=
  match endpoint with
  | ApiLogin => Server.Login (Server.mkLoginBody (body_email body) (body_password body))
  | ApiRegister =>
      Server.Register
        (Server.mkRegisterBody (body_email body) (body_password body)
           (match body_name body with Some n => n | None => "" end))
  end.

(** [fetch] when the other end is the service holding [db]. *)
Definition fetch_service (db : Server.Database)
    (endpoint : Endpoint) (body : Credentials) : Reply :=
  reply_of (snd (Server.serve db (request_of endpoint body))).

End Auth.

(** ** The catalogue and sample data

    The [products] table is written by the seeding block of [src/server.ts]
    alone (no route inserts or updates a product), so the products the
    client is served are the rows of [seedProducts], with the keys 1 to 8
    that the empty table gives them. *)

Definition milk : Product :=
  mkProduct 1 "Amul Gold Milk" "Dairy" 33
            "https://picsum.photos/seed/milk/400/400" 100 "Fresh full cream milk".

Definition bread : Product :=
  mkProduct 2 "Harvest Gold Bread" "Bakery" 45
            "https://picsum.photos/seed/bread/400/400" 50 "Whole wheat brown bread".

Definition chips : Product :=
  mkProduct 3 "Lays Classic Salted" "Snacks" 20
            "https://picsum.photos/seed/chips/400/400" 200 "Crispy potato chips".

Definition cola : Product :=
  mkProduct 4 "Coca Cola 1.25L" "Beverages" 65
            "https://picsum.photos/seed/coke/400/400" 80 "Refreshing soft drink".

Definition atta : Product :=
  mkProduct 5 "Aashirvaad Atta 5kg" "Atta, Rice & Dal" 245
            "https://picsum.photos/seed/atta/400/400" 40 "Premium chakki atta".

Definition noodles : Product :=
  mkProduct 6 "Maggi Noodles 280g" "Instant Food" 48
            "https://picsum.photos/seed/maggi/400/400" 150 "2-minute masala noodles".

Definition detergent : Product :=
  mkProduct 7 "Surf Excel Matic" "Cleaning" 199
            "https://picsum.photos/seed/surf/400/400" 30 "Top load detergent".

Definition handwash : Product :=
  mkProduct 8 "Dettol Handwash" "Personal Care" 99
            "https://picsum.photos/seed/dettol/400/400" 60 "Germ protection liquid".

Definition seedProducts : list Product :=
  [milk; bread; chips; cola; atta; noodles; detergent; handwash].

(** The same product id as [milk], every other field different. *)
Definition milk_repriced : Product :=
  mkProduct 1 "Milk" "Offers" 40 "" 0 "".

Definition shopper : UserData := mkUserData 7 "asha@example.com" "Asha".

(** An order service that accepts every order, one that answers every
    request with a server error, and a network that is down. *)
Definition fetch_created (_ : OrderRequest) : FetchOutcome := Responded 200.
Definition fetch_server_error (_ : OrderRequest) : FetchOutcome := Responded 500.
Definition fetch_offline (_ : OrderRequest) : FetchOutcome := Rejected.

Definition at_checkout (c : Cart) : AppState := mkAppState c "/checkout" false.

(** A request body whose second item is JSON [null]. *)
Definition order_with_null_item : Server.OrdersBody :=
  Server.mkOrdersBody (Some 7)
    [Some (mkCartItem milk 1); None; Some (mkCartItem bread 2)] 125.

(** A database that already holds an order of user 7 and one of user 8. *)
Definition stored_orders : Server.Database :=
  Server.serve_all
    [Server.CreateOrder
       (Server.mkOrdersBody (Some 7) [Some (mkCartItem chips 1)] 22) 1;
     Server.CreateOrder
       (Server.mkOrdersBody (Some 8) [Some (mkCartItem bread 2)] 92) 2]
    Server.empty_db.

Definition order_of_two_lines : Server.OrdersBody :=
  Server.mkOrdersBody (Some 7)
    [Some (mkCartItem milk 1); Some (mkCartItem bread 2)] 125.

(** * Properties *)

(** ** Lookup by product id *)

Lemma has_id_true (x : Z) (item : CartItem) :
  has_id x item = true <-> id item = x.
Proof. unfold has_id. apply Z.eqb_eq. Qed.

Lemma has_id_false (x : Z) (item : CartItem) :
  has_id x item = false <-> id item <> x.
Proof. unfold has_id. apply Z.eqb_neq. Qed.

Lemma find_absent (x : Z) (c : Cart) :
  find (has_id x) c = None <-> ~ In x (ids c).
Proof.
  induction c as [|item rest IH]; simpl.
  - tauto.
  - destruct (has_id x item) eqn:E.
    + apply has_id_true in E. split; [discriminate | intros H; exfalso; auto].
    + apply has_id_false in E. rewrite IH. tauto.
Qed.

Lemma find_present (x : Z) (c : Cart) (e : CartItem) :
  find (has_id x) c = Some e -> In e c /\ id e = x.
Proof.
  intros H. apply find_some in H. now rewrite has_id_true in H.
Qed.

Lemma in_ids (item : CartItem) (c : Cart) : In item c -> In (id item) (ids c).
Proof. intros H. unfold ids. now apply (in_map (fun i : CartItem => id i)). Qed.

(** With one line per id, the line [find] returns is the only one with
    that id. *)
Lemma unique_line (c : Cart) (a b : CartItem) :
  NoDup (ids c) -> In a c -> In b c -> id a = id b -> a = b.
Proof.
  induction c as [|item rest IH]; simpl; intros ND Ha Hb E.
  - contradiction.
  - inversion ND as [|? ? Hnot ND']; subst.
    destruct Ha as [-> | Ha], Hb as [-> | Hb]; auto.
    + exfalso. apply Hnot. rewrite E. now apply in_ids.
    + exfalso. apply Hnot. rewrite <- E. now apply in_ids.
Qed.

(** ** The two updaters, case by case *)

Lemma ids_on_line (x d : Z) (c : Cart) : ids (map (on_line x d) c) = ids c.
Proof.
  unfold ids. rewrite map_map. apply map_ext. intros item.
  unfold on_line. now destruct (has_id x item).
Qed.

Lemma map_on_line_absent (x d : Z) (c : Cart) :
  ~ In x (ids c) -> map (on_line x d) c = c.
Proof.
  induction c as [|item rest IH]; simpl; intros H; [reflexivity|].
  unfold on_line at 1. destruct (has_id x item) eqn:E.
  - apply has_id_true in E. exfalso. auto.
  - f_equal. apply IH. tauto.
Qed.

Lemma filter_absent (x : Z) (c : Cart) :
  ~ In x (ids c) -> filter (fun item => negb (has_id x item)) c = c.
Proof.
  induction c as [|item rest IH]; simpl; intros H; [reflexivity|].
  destruct (has_id x item) eqn:E; simpl.
  - apply has_id_true in E. exfalso. auto.
  - f_equal. apply IH. tauto.
Qed.

Lemma addToCart_present (p : Product) (c : Cart) :
  In (id p) (ids c) -> addToCart p c = map (on_line (id p) 1) c.
Proof.
  intros H. unfold addToCart.
  destruct (find (has_id (id p)) c) eqn:F; [reflexivity|].
  apply find_absent in F. contradiction.
Qed.

Lemma addToCart_absent (p : Product) (c : Cart) :
  ~ In (id p) (ids c) -> addToCart p c = c ++ [mkCartItem p 1].
Proof.
  intros H. unfold addToCart. apply find_absent in H. now rewrite H.
Qed.

Lemma bump_bump (a b : Z) (item : CartItem) :
  bump b (bump a item) = bump (a + b) item.
Proof. unfold bump. simpl. f_equal. lia. Qed.

Lemma bump_0 (item : CartItem) : bump 0 item = item.
Proof. destruct item. unfold bump. simpl. f_equal. lia. Qed.

(** ** The invariant is kept by every step *)

Lemma CartInv_nil : CartInv [].
Proof. split; constructor. Qed.

Lemma addToCart_inv (p : Product) (c : Cart) :
  CartInv c -> CartInv (addToCart p c).
Proof.
  intros [ND Q]. destruct (in_dec Z.eq_dec (id p) (ids c)) as [Hin | Hout].
  - rewrite addToCart_present by assumption. split.
    + now rewrite ids_on_line.
    + apply Forall_map. eapply Forall_impl; [|exact Q].
      intros item Hq. unfold on_line, bump. destruct (has_id (id p) item); simpl in *; lia.
  - rewrite addToCart_absent by assumption. split.
    + unfold ids. rewrite map_app. simpl.
      apply NoDup_app; [exact ND| repeat constructor; simpl; tauto |].
      intros a Ha [<- | []]. apply Hout. exact Ha.
    + apply Forall_app. split; [exact Q|]. repeat constructor. simpl. lia.
Qed.

Lemma NoDup_ids_filter (f : CartItem -> bool) (c : Cart) :
  NoDup (ids c) -> NoDup (ids (filter f c)).
Proof.
  induction c as [|item rest IH]; simpl; intros ND; [constructor|].
  inversion ND as [|? ? Hnot ND']; subst.
  destruct (f item); simpl; [|auto].
  constructor; [|auto]. intros Hin. apply Hnot.
  unfold ids in *. apply in_map_iff in Hin. destruct Hin as [i [E Hi]].
  apply filter_In in Hi. rewrite <- E. now apply in_ids.
Qed.

Lemma removeFromCart_inv (x : Z) (c : Cart) :
  CartInv c -> CartInv (removeFromCart x c).
Proof.
  intros [ND Q]. unfold removeFromCart.
  destruct (find (has_id x) c) as [e|] eqn:F.
  - destruct (1 <? quantity e) eqn:G.
    + apply Z.ltb_lt in G. apply find_present in F. destruct F as [He Hx].
      split.
      * now rewrite ids_on_line.
      * apply Forall_map. rewrite Forall_forall in *. intros item Hi.
        unfold on_line. destruct (has_id x item) eqn:E.
        -- apply has_id_true in E.
           assert (item = e) by (apply (unique_line c); congruence).
           subst item. unfold bump. simpl. lia.
        -- now apply Q.
    + split; [now apply NoDup_ids_filter|].
      rewrite Forall_forall in *. intros item Hi.
      apply filter_In in Hi. now apply Q.
  - split; [now apply NoDup_ids_filter|].
    rewrite Forall_forall in *. intros item Hi.
    apply filter_In in Hi. now apply Q.
Qed.

Lemma step_inv (c : Cart) (a : CartAction) : CartInv c -> CartInv (step c a).
Proof.
  destruct a; simpl; [apply addToCart_inv | apply removeFromCart_inv].
Qed.

Lemma fold_step_inv (actions : list CartAction) (c : Cart) :
  CartInv c -> CartInv (fold_left step actions c).
Proof.
  revert c. induction actions as [|a rest IH]; simpl; intros c H.
  - exact H.
  - apply IH. now apply step_inv.
Qed.

(** C1. After any sequence of [addToCart] / [removeFromCart] calls that
    starts from the empty cart, no two lines of the cart share a product id
    and every line has a quantity of at least one: a line whose quantity
    would reach zero is dropped instead of being kept. *)
Theorem cart_invariant (actions : list CartAction) :
  NoDup (ids (run actions)) /\
  Forall (fun item => 1 <= quantity item) (run actions).
Proof.
  apply (fold_step_inv actions []). exact CartInv_nil.
Qed.

(** ** Totals *)

Lemma fold_left_sum (f : CartItem -> Z) (c : Cart) (a : Z) :
  fold_left (fun sum item => sum + f item) c a = a + sum_lines f c.
Proof.
  revert a. induction c as [|item rest IH]; simpl; intros a.
  - lia.
  - rewrite IH. lia.
Qed.

Lemma sum_lines_nonneg (f : CartItem -> Z) (c : Cart) :
  Forall (fun item => 0 <= f item) c -> 0 <= sum_lines f c.
Proof.
  induction 1 as [|item rest H _ IH]; simpl; lia.
Qed.

(** The lines of a reachable cart carry products that were added. *)
Lemma step_products (P : Product -> Prop) (c : Cart) (a : CartAction) :
  match a with
  | AddLine p => P p
  | RemoveLine _ => True
  end ->
  Forall (fun item : CartItem => P item) c ->
  Forall (fun item : CartItem => P item) (step c a).
Proof.
  intros Ha H. destruct a as [p | x]; simpl.
  - unfold addToCart. destruct (find (has_id (id p)) c).
    + apply Forall_map. eapply Forall_impl; [|exact H].
      intros item Hi. unfold on_line, bump. now destruct (has_id (id p) item).
    + apply Forall_app. split; [exact H|]. repeat constructor. exact Ha.
  - unfold removeFromCart.
    destruct (match find (has_id x) c with
              | Some e => 1 <? quantity e
              | None => false
              end).
    + apply Forall_map. eapply Forall_impl; [|exact H].
      intros item Hi. unfold on_line, bump. now destruct (has_id x item).
    + rewrite Forall_forall in *. intros item Hi.
      apply filter_In in Hi. now apply H.
Qed.

Lemma run_products (P : Product -> Prop) (actions : list CartAction) :
  (forall p, In (AddLine p) actions -> P p) ->
  Forall (fun item : CartItem => P item) (run actions).
Proof.
  unfold run.
  assert (G : forall c, Forall (fun item : CartItem => P item) c ->
              (forall p, In (AddLine p) actions -> P p) ->
              Forall (fun item : CartItem => P item) (fold_left step actions c)).
  { induction actions as [|a rest IH]; simpl; intros c Hc H; [exact Hc|].
    apply IH; [|auto]. apply step_products; [|exact Hc].
    destruct a; [apply H; now left | exact I]. }
  intros H. apply G; [constructor | exact H].
Qed.

Lemma seed_prices : Forall (fun p => 0 <= price p) seedProducts.
Proof. repeat constructor; simpl; lia. Qed.

(** C2. For every cart the session can build, that is after any sequence
    of [addToCart] / [removeFromCart] calls whose products are rows of the
    catalogue, [cartTotal] is the sum over the lines of price times
    quantity and is not negative, and [cartCount] is the sum of the
    quantities; both are 0 for the empty cart. *)
Theorem cart_totals (actions : list CartAction) :
  (forall p, In (AddLine p) actions -> In p seedProducts) ->
  cartTotal (run actions)
    = sum_lines (fun item => price item * quantity item) (run actions) /\
  0 <= cartTotal (run actions) /\
  cartCount (run actions) = sum_lines quantity (run actions) /\
  cartTotal [] = 0 /\
  cartCount [] = 0.
Proof.
  intros Hseed.
  assert (T : cartTotal (run actions)
              = sum_lines (fun item => price item * quantity item) (run actions)).
  { unfold cartTotal.
    now rewrite (fold_left_sum (fun item => price item * quantity item)). }
  split; [exact T|]. split; [|split; [|split; reflexivity]].
  - rewrite T. apply sum_lines_nonneg.
    pose proof (fold_step_inv actions [] CartInv_nil) as [_ Q].
    fold (run actions) in Q.
    assert (Hp : Forall (fun item : CartItem => 0 <= price item) (run actions)).
    { apply (run_products (fun p => 0 <= price p)). intros p Hp. apply Hseed in Hp.
      pose proof seed_prices as S. rewrite Forall_forall in S. now apply S. }
    rewrite Forall_forall in *. intros item Hi.
    specialize (Q item Hi). specialize (Hp item Hi). simpl in *. nia.
  - unfold cartCount. now rewrite (fold_left_sum quantity).
Qed.

Lemma cart_totals_witness :
  cartTotal (run [AddLine milk; AddLine bread; AddLine milk; RemoveLine 2])
    = sum_lines (fun item => price item * quantity item)
        (run [AddLine milk; AddLine bread; AddLine milk; RemoveLine 2]) /\
  0 <= cartTotal (run [AddLine milk; AddLine bread; AddLine milk; RemoveLine 2]) /\
  cartCount (run [AddLine milk; AddLine bread; AddLine milk; RemoveLine 2])
    = sum_lines quantity
        (run [AddLine milk; AddLine bread; AddLine milk; RemoveLine 2]) /\
  cartTotal [] = 0 /\
  cartCount [] = 0.
Proof.
  apply (cart_totals [AddLine milk; AddLine bread; AddLine milk; RemoveLine 2]).
  intros p [E | [E | [E | [E | []]]]]; try discriminate;
    injection E as <-; simpl; auto.
Defined.

(** The scenario of the specification: add, add, remove, remove. *)
Example scenario_totals :
  let c1 := run [AddLine milk] in
  let c2 := run [AddLine milk; AddLine milk] in
  let c3 := run [AddLine milk; AddLine milk; RemoveLine 1] in
  let c4 := run [AddLine milk; AddLine milk; RemoveLine 1; RemoveLine 1] in
  (cartTotal c1, cartCount c1) = (33, 1) /\
  (cartTotal c2, cartCount c2) = (66, 2) /\
  (cartTotal c3, cartCount c3) = (33, 1) /\
  c4 = [] /\ cartTotal c4 = 0.
Proof. repeat split. Qed.

(** ** Adding and removing a line *)

Lemma has_id_on_line (x y d : Z) (item : CartItem) :
  has_id x (on_line y d item) = has_id x item.
Proof. unfold on_line. now destruct (has_id y item). Qed.

Lemma find_map_on_line (x d : Z) (c : Cart) :
  find (has_id x) (map (on_line x d) c)
    = option_map (on_line x d) (find (has_id x) c).
Proof.
  induction c as [|item rest IH]; simpl; [reflexivity|].
  rewrite has_id_on_line. now destruct (has_id x item).
Qed.

Lemma on_line_inverse (x d : Z) (item : CartItem) :
  on_line x (- d) (on_line x d item) = item.
Proof.
  unfold on_line at 1. rewrite has_id_on_line. unfold on_line.
  destruct (has_id x item); [|reflexivity].
  rewrite bump_bump. replace (d + - d) with 0 by lia. apply bump_0.
Qed.

Lemma find_app_absent (x : Z) (c : Cart) (item : CartItem) :
  ~ In x (ids c) -> id item = x -> find (has_id x) (c ++ [item]) = Some item.
Proof.
  induction c as [|i rest IH]; simpl; intros H E.
  - apply has_id_true in E. now rewrite E.
  - destruct (has_id x i) eqn:G.
    + apply has_id_true in G. exfalso. auto.
    + apply IH; tauto.
Qed.

Lemma add_then_remove_positive (p : Product) (c : Cart) :
  Forall (fun item => 1 <= quantity item) c ->
  removeFromCart (id p) (addToCart p c) = c.
Proof.
  intros Q. destruct (in_dec Z.eq_dec (id p) (ids c)) as [Hin | Hout].
  - rewrite addToCart_present by assumption.
    unfold removeFromCart. rewrite find_map_on_line.
    destruct (find (has_id (id p)) c) as [e|] eqn:F.
    + apply find_present in F. destruct F as [He Hid].
      rewrite Forall_forall in Q. specialize (Q e He).
      simpl. unfold on_line at 1. apply has_id_true in Hid. rewrite Hid.
      unfold bump at 1. simpl.
      replace (1 <? quantity e + 1) with true by (symmetry; apply Z.ltb_lt; lia).
      rewrite map_map. rewrite <- (map_id c) at 2.
      apply map_ext. intros item. apply (on_line_inverse (id p) 1).
    + apply find_absent in F. contradiction.
  - rewrite addToCart_absent by assumption.
    unfold removeFromCart.
    rewrite (find_app_absent (id p) c (mkCartItem p 1)) by auto.
    simpl. rewrite filter_app, filter_absent by assumption.
    simpl. unfold has_id. simpl. rewrite Z.eqb_refl. simpl. apply app_nil_r.
Qed.

(** C7. In every state the cart can reach, and more generally on every cart
    whose lines all have a quantity of at least one, [addToCart p] followed
    by [removeFromCart p.id] gives back the cart it started from. *)
Theorem add_then_remove (p : Product) :
  (forall actions : list CartAction,
      removeFromCart (id p) (addToCart p (run actions)) = run actions) /\
  (forall c : Cart,
      Forall (fun item => 1 <= quantity item) c ->
      removeFromCart (id p) (addToCart p c) = c).
Proof.
  split.
  - intros actions. apply add_then_remove_positive.
    apply (fold_step_inv actions []). exact CartInv_nil.
  - intros c. apply add_then_remove_positive.
Qed.

Lemma add_then_remove_witness :
  removeFromCart (id milk) (addToCart milk [mkCartItem bread 4; mkCartItem milk 2])
    = [mkCartItem bread 4; mkCartItem milk 2].
Proof.
  apply (proj2 (add_then_remove milk) [mkCartItem bread 4; mkCartItem milk 2]).
  repeat constructor; simpl; lia.
Defined.

(** C8. Removing a product id that has no line in the cart returns the
    cart as it was: the call is a total function (nothing is thrown), and
    every line of the result is a line of the cart before, so no line with
    a negative quantity appears. *)
Theorem remove_absent (x : Z) (c : Cart) :
  (forall item, In item c -> id item <> x) ->
  removeFromCart x c = c /\
  Forall (fun item => In item c) (removeFromCart x c).
Proof.
  intros H.
  assert (Hout : ~ In x (ids c)).
  { unfold ids. rewrite in_map_iff. intros [item [E Hi]]. now apply (H item). }
  assert (E : removeFromCart x c = c).
  { unfold removeFromCart. apply find_absent in Hout as F. rewrite F.
    now apply filter_absent. }
  split; [exact E|]. rewrite E. apply Forall_forall. auto.
Qed.

Lemma remove_absent_witness :
  removeFromCart 5 (run [AddLine milk; AddLine bread])
    = run [AddLine milk; AddLine bread].
Proof.
  apply (remove_absent 5 (run [AddLine milk; AddLine bread])).
  simpl. intros item [<- | [<- | []]]; simpl; lia.
Defined.

(** C10. When the cart already has a line for [p.id], [addToCart p] adds
    one to that line's quantity and changes nothing else: the line keeps the
    product fields it was created with (its unit price among them) whatever
    fields [p] carries, and the lines before and after it are untouched. *)
Theorem add_existing_frame (p : Product) (c : Cart) (line : CartItem) :
  NoDup (ids c) ->
  In line c ->
  id line = id p ->
  exists before after : Cart,
    c = before ++ line :: after /\
    addToCart p c
      = before ++ mkCartItem (product line) (quantity line + 1) :: after.
Proof.
  intros ND Hin E.
  destruct (in_split line c Hin) as [before [after ->]].
  exists before, after. split; [reflexivity|].
  rewrite addToCart_present by (apply in_ids in Hin; congruence).
  unfold ids in ND. rewrite map_app in ND. simpl in ND.
  apply NoDup_remove_2 in ND. rewrite in_app_iff in ND. rewrite E in ND.
  rewrite map_app. simpl.
  rewrite !map_on_line_absent by (unfold ids; tauto).
  unfold on_line. apply has_id_true in E. now rewrite E.
Qed.

Lemma add_existing_frame_witness :
  exists before after : Cart,
    run [AddLine bread; AddLine milk; AddLine chips]
      = before ++ mkCartItem milk 1 :: after /\
    addToCart milk_repriced (run [AddLine bread; AddLine milk; AddLine chips])
      = before ++ mkCartItem milk 2 :: after.
Proof.
  apply (add_existing_frame milk_repriced
           (run [AddLine bread; AddLine milk; AddLine chips])
           (mkCartItem milk 1)).
  - apply (fold_step_inv [AddLine bread; AddLine milk; AddLine chips] []).
    exact CartInv_nil.
  - simpl. auto.
  - reflexivity.
Defined.

(** ** Checkout *)

Lemma CheckoutPage_form (c : Cart) : c <> [] -> CheckoutPage c = OrderForm.
Proof. destruct c; [congruence | reflexivity]. Qed.

Lemma ok_spec (status : Z) : ok status = true <-> 200 <= status <= 299.
Proof. unfold ok. rewrite andb_true_iff, !Z.leb_le. tauto. Qed.

(** C3. With a non-empty cart, whatever request [handlePlaceOrder] sends
    carries [cartTotal + 2] as its total, and for a signed-in user it does
    send one, whose items are the cart's lines. *)
Theorem checkout_total (fetch : OrderRequest -> FetchOutcome) (st : AppState) :
  cart st <> [] ->
  (forall user request,
      snd (placeOrder user fetch st) = Some request ->
      total request = cartTotal (cart st) + 2) /\
  (forall u,
      exists request,
        snd (placeOrder (Some u) fetch st) = Some request /\
        userId request = user_id u /\
        items request = cart st /\
        total request = cartTotal (cart st) + 2).
Proof.
  intros Hne. unfold placeOrder. rewrite (CheckoutPage_form _ Hne). split.
  - intros [u|] request; simpl; intros H; [|discriminate].
    injection H as <-. reflexivity.
  - intros u. eexists. simpl. repeat split.
Qed.

Lemma checkout_total_witness :
  exists request,
    snd (placeOrder (Some shopper) fetch_created
           (at_checkout (run [AddLine milk; AddLine bread])))
      = Some request /\
    userId request = 7 /\
    items request = run [AddLine milk; AddLine bread] /\
    total request = 80.
Proof.
  apply (checkout_total fetch_created
           (at_checkout (run [AddLine milk; AddLine bread]))).
  simpl. discriminate.
Defined.

(** C4. Placing an order with a non-empty cart empties the cart exactly
    when the order service confirms the order (a signed-in user and a 2xx
    response); in every other case (no user, rejected fetch, non-2xx
    response) the cart afterwards is the cart before. *)
Theorem cart_cleared_iff_confirmed
    (user : option UserData) (fetch : OrderRequest -> FetchOutcome)
    (st : AppState) :
  cart st <> [] ->
  (cart (fst (placeOrder user fetch st)) = [] <-> order_confirmed user fetch st) /\
  (~ order_confirmed user fetch st ->
   cart (fst (placeOrder user fetch st)) = cart st).
Proof.
  intros Hne. unfold placeOrder, order_confirmed.
  rewrite (CheckoutPage_form _ Hne).
  destruct user as [u|]; simpl.
  - destruct (fetch _) as [|status] eqn:F.
    + simpl. split.
      * split; [congruence|]. intros [u' [s' [Hu [Hf _]]]].
        injection Hu as <-. congruence.
      * reflexivity.
    + destruct (ok status) eqn:K; simpl.
      * apply ok_spec in K. split.
        -- split; [|reflexivity]. intros _. now exists u, status.
        -- intros H. exfalso. apply H. now exists u, status.
      * split.
        -- split; [congruence|]. intros [u' [s' [Hu [Hf Hs]]]].
           injection Hu as <-. rewrite F in Hf. injection Hf as <-.
           apply ok_spec in Hs. congruence.
        -- reflexivity.
  - split.
    + split; [congruence|]. intros [u' [s' [Hu _]]]. discriminate.
    + reflexivity.
Qed.

Lemma cart_cleared_iff_confirmed_witness :
  cart (fst (placeOrder (Some shopper) fetch_server_error
               (at_checkout (run [AddLine milk; AddLine bread]))))
    = run [AddLine milk; AddLine bread].
Proof.
  apply (cart_cleared_iff_confirmed (Some shopper) fetch_server_error
           (at_checkout (run [AddLine milk; AddLine bread]))).
  - simpl. discriminate.
  - intros [u [status [_ [Hf Hs]]]]. injection Hf as <-. lia.
Defined.

Example checkout_outcomes :
  let st := at_checkout (run [AddLine milk; AddLine bread]) in
  fst (placeOrder (Some shopper) fetch_created st) = mkAppState [] "/success" false /\
  fst (placeOrder (Some shopper) fetch_offline st) = st /\
  fst (placeOrder (Some shopper) fetch_server_error st) = st /\
  placeOrder None fetch_created st = (navigate "/auth" st, None).
Proof. repeat split. Qed.

(** ** Product discovery *)

Section Strings.

Local Open Scope string_scope.

Lemma append_assoc (a b c : string) : (a ++ b) ++ c = a ++ (b ++ c).
Proof. induction a as [|ch a IH]; simpl; [reflexivity | now rewrite IH]. Qed.

Lemma prefix_iff (sub s : string) :
  prefix sub s = true <-> exists after, s = sub ++ after.
Proof.
  revert s. induction sub as [|c sub IH]; intros s.
  - split; [intros _; now exists s | intros _; now destruct s].
  - destruct s as [|d s]; simpl.
    + split; [discriminate | intros [after H]; discriminate].
    + destruct (ascii_dec c d) as [<- | Hne].
      * rewrite IH. split; intros [after H]; exists after.
        -- now rewrite H.
        -- now injection H.
      * split; [discriminate|]. intros [after H]. injection H as H1 _.
        congruence.
Qed.

Lemma includes_nil (sub : string) : includes "" sub = prefix sub "" || false.
Proof. reflexivity. Qed.

Lemma includes_cons (c : ascii) (s sub : string) :
  includes (String c s) sub = prefix sub (String c s) || includes s sub.
Proof. reflexivity. Qed.

Lemma includes_iff (s sub : string) :
  includes s sub = true <-> exists before after, s = before ++ sub ++ after.
Proof.
  induction s as [|c s IH]; [rewrite includes_nil | rewrite includes_cons].
  - rewrite orb_false_r, prefix_iff. split.
    + intros [after H]. now exists "", after.
    + intros [before [after H]]. destruct before; [now exists after|discriminate].
  - rewrite orb_true_iff, prefix_iff, IH. split.
    + intros [[after H] | [before [after H]]].
      * now exists "", after.
      * exists (String c before), after. simpl. now rewrite H.
    + intros [before [after H]]. destruct before as [|d before]; simpl in H.
      * left. now exists after.
      * right. injection H as _ H. now exists before, after.
Qed.

Lemma ascii_lower_app (a b : string) :
  ascii_lower (a ++ b) = ascii_lower a ++ ascii_lower b.
Proof. induction a as [|c a IH]; simpl; [reflexivity | now rewrite IH]. Qed.

Lemma ascii_lower_split (s x y : string) :
  ascii_lower s = x ++ y ->
  exists s1 s2, s = s1 ++ s2 /\ ascii_lower s1 = x /\ ascii_lower s2 = y.
Proof.
  revert s. induction x as [|c x IH]; intros s H; simpl in H.
  - now exists "", s.
  - destruct s as [|d s]; simpl in H; [discriminate|].
    injection H as Hc H. destruct (IH s H) as [s1 [s2 [E [H1 H2]]]].
    exists (String d s1), s2. simpl. now rewrite E, Hc, H1.
Qed.

Lemma ascii_text_app (a b : string) :
  ascii_text (a ++ b) = ascii_text a && ascii_text b.
Proof.
  induction a as [|c a IH]; simpl; [reflexivity|].
  now rewrite IH, andb_assoc.
Qed.

(** *** The ASCII fold, letter by letter *)

Lemma nat_of_ascii_inj (c d : ascii) : nat_of_ascii c = nat_of_ascii d -> c = d.
Proof.
  intros H. rewrite <- (ascii_nat_embedding c), <- (ascii_nat_embedding d).
  now rewrite H.
Qed.

Lemma lower_char_nat (c : ascii) :
  nat_of_ascii (lower_char c)
    = if ((65 <=? nat_of_ascii c) && (nat_of_ascii c <=? 90))%nat
      then (nat_of_ascii c + 32)%nat
      else nat_of_ascii c.
Proof.
  unfold lower_char.
  destruct ((65 <=? nat_of_ascii c) && (nat_of_ascii c <=? 90))%nat eqn:E;
    [|reflexivity].
  apply andb_true_iff in E. destruct E as [_ E]. apply Nat.leb_le in E.
  apply nat_ascii_embedding. lia.
Qed.

Lemma same_letter_iff (c d : ascii) :
  same_letter c d <-> lower_char c = lower_char d.
Proof.
  unfold same_letter. split.
  - intros H. apply nat_of_ascii_inj. rewrite !lower_char_nat.
    destruct H as [-> | H]; [reflexivity|].
    destruct (Nat.leb_spec 65 (nat_of_ascii c)), (Nat.leb_spec (nat_of_ascii c) 90),
      (Nat.leb_spec 65 (nat_of_ascii d)), (Nat.leb_spec (nat_of_ascii d) 90);
      simpl; lia.
  - intros H. apply (f_equal nat_of_ascii) in H. rewrite !lower_char_nat in H.
    destruct (Nat.leb_spec 65 (nat_of_ascii c)), (Nat.leb_spec (nat_of_ascii c) 90),
      (Nat.leb_spec 65 (nat_of_ascii d)), (Nat.leb_spec (nat_of_ascii d) 90);
      simpl in H;
      first [ left; apply nat_of_ascii_inj; lia
            | right; left; lia
            | right; right; lia ].
Qed.

Lemma same_letters_iff (w q : string) :
  same_letters w q <-> ascii_lower w = ascii_lower q.
Proof.
  split.
  - induction 1 as [|c d s t Hc _ IH]; simpl; [reflexivity|].
    apply same_letter_iff in Hc. now rewrite Hc, IH.
  - revert q. induction w as [|c w IH]; intros [|d q] H; simpl in H;
      try discriminate; [constructor|].
    injection H as Hc H. constructor; [now apply same_letter_iff | now apply IH].
Qed.

(** [includes] on the folded strings is the match letter by letter. *)
Lemma includes_letters (s q : string) :
  includes (ascii_lower s) (ascii_lower q) = true <-> contains_letters s q.
Proof.
  rewrite includes_iff. unfold contains_letters. split.
  - intros [b [a H]].
    destruct (ascii_lower_split _ _ _ H) as [s1 [s23 [E [H1 H23]]]].
    destruct (ascii_lower_split _ _ _ H23) as [w [s3 [E' [Hw H3]]]].
    exists s1, w, s3. split; [now rewrite E, E' | now apply same_letters_iff].
  - intros [before [w [after [E Hw]]]]. apply same_letters_iff in Hw.
    exists (ascii_lower before), (ascii_lower after).
    now rewrite E, !ascii_lower_app, Hw.
Qed.

End Strings.

Lemma ascii_runtime_spec : RuntimeSpec ascii_runtime.
Proof. constructor; reflexivity. Qed.

Lemma matchesCategory_iff (active : string) (p : Product) :
  matchesCategory active p = true <-> active = "All" \/ category p = active.
Proof.
  unfold matchesCategory. now rewrite orb_true_iff, !String.eqb_eq.
Qed.

Section DiscoveryFacts.

Context {rt : Runtime} (Hrt : RuntimeSpec rt).

Lemma includes_ci (s q : string) :
  includes (toLowerCase s) (toLowerCase q) = true <-> contains_ci s q.
Proof. apply includes_iff. Qed.

Lemma matchesSearch_iff (q : string) (p : Product) :
  matchesSearch q p = true <->
  contains_ci (name p) q \/ contains_ci (category p) q.
Proof. unfold matchesSearch. now rewrite orb_true_iff, !includes_ci. Qed.

Lemma contains_ci_ascii (s q : string) :
  ascii_text s = true -> ascii_text q = true ->
  (contains_ci s q <-> contains_letters s q).
Proof.
  intros Hs Hq. rewrite <- includes_ci, <- includes_letters.
  now rewrite (toLowerCase_ascii rt Hrt s Hs), (toLowerCase_ascii rt Hrt q Hq).
Qed.

(** C9. [filteredProducts] is a function of the product list, the query
    and the active category alone. A product is in its result exactly when
    it is in the list, its name or its category contains the query without
    regard to case, and the active category is "All" or is the product's
    category. A query that occurs in no product's name or category gives
    the empty list. Containing without regard to case is containing once
    both texts are put in lower case by the runtime; on ASCII text it is
    the same as having a part that equals the query letter by letter, the
    case of each letter set aside. *)
Theorem search_filter (products : list Product) (q active : string) :
  (forall p,
      In p (filteredProducts products q active) <->
      search_spec products q active p) /\
  ((forall p, In p products ->
        ~ contains_ci (name p) q /\ ~ contains_ci (category p) q) ->
   filteredProducts products q active = []) /\
  (forall s w, ascii_text s = true -> ascii_text w = true ->
               (contains_ci s w <-> contains_letters s w)).
Proof.
  assert (M : forall p, In p (filteredProducts products q active) <->
                        search_spec products q active p).
  { intros p. unfold filteredProducts, search_spec.
    now rewrite filter_In, andb_true_iff, matchesSearch_iff, matchesCategory_iff. }
  split; [exact M|]. split; [|apply contains_ci_ascii].
  intros Hno. destruct (filteredProducts products q active) as [|p rest] eqn:E;
    [reflexivity|].
  exfalso. assert (Hp : In p (p :: rest)) by (left; reflexivity).
  apply M in Hp. destruct Hp as [Hin [Hs _]].
  destruct (Hno p Hin). tauto.
Qed.

End DiscoveryFacts.

Lemma search_filter_witness :
  filteredProducts (rt := ascii_runtime) seedProducts "Pizza" "All" = [].
Proof.
  apply (search_filter ascii_runtime_spec seedProducts "Pizza" "All").
  intros p Hp. rewrite <- !includes_ci. simpl in Hp.
  repeat (destruct Hp as [<- | Hp]; [split; vm_compute; discriminate|]).
  destruct Hp.
Defined.

(** The letter-by-letter reading at work: "GOLD" is found in "Amul Gold
    Milk" through the part "Gold". *)
Example contains_letters_gold : contains_letters "Amul Gold Milk" "GOLD".
Proof.
  exists "Amul "%string, "Gold"%string, " Milk"%string. split; [reflexivity|].
  repeat constructor; unfold same_letter; simpl; lia.
Qed.

Example search_examples :
  filteredProducts (rt := ascii_runtime) seedProducts "GOLD" "All" = [milk; bread] /\
  filteredProducts (rt := ascii_runtime) seedProducts "gold" "Dairy" = [milk] /\
  filteredProducts (rt := ascii_runtime) seedProducts "snack" "All" = [chips] /\
  filteredProducts (rt := ascii_runtime) seedProducts "" "Bakery" = [bread].
Proof. repeat split. Qed.

(** ** The order service *)

Section ServerFacts.

Import Server.

(** *** Row keys *)

Lemma fold_max_init (l : list Z) (a : Z) : a <= fold_left Z.max l a.
Proof.
  revert a. induction l as [|x l IH]; simpl; intros a; [lia|].
  specialize (IH (Z.max a x)). lia.
Qed.

Lemma fold_max_elem (l : list Z) (a x : Z) : In x l -> x <= fold_left Z.max l a.
Proof.
  revert a. induction l as [|y l IH]; simpl; intros a H; [contradiction|].
  destruct H as [-> | H].
  - pose proof (fold_max_init l (Z.max a x)). lia.
  - now apply IH.
Qed.

Lemma fold_max_bound (l : list Z) (a b : Z) :
  a <= b -> (forall x, In x l -> x <= b) -> fold_left Z.max l a <= b.
Proof.
  revert a. induction l as [|y l IH]; simpl; intros a Ha H; [exact Ha|].
  apply IH; [|auto]. specialize (H y (or_introl eq_refl)). lia.
Qed.

Lemma next_rowid_fresh (seq x : Z) (rowids : list Z) :
  In x rowids -> x < next_rowid seq rowids.
Proof.
  intros H. unfold next_rowid. pose proof (fold_max_elem rowids seq x H). lia.
Qed.

Lemma next_rowid_after (seq : Z) (rowids : list Z) :
  next_rowid (next_rowid seq rowids) (rowids ++ [next_rowid seq rowids])
    = next_rowid seq rowids + 1.
Proof.
  set (r := next_rowid seq rowids).
  unfold next_rowid at 1. rewrite fold_left_app. simpl.
  assert (fold_left Z.max rowids r <= r).
  { apply fold_max_bound; [lia|]. intros x Hx.
    pose proof (next_rowid_fresh seq x rowids Hx). unfold r. lia. }
  pose proof (fold_max_init rowids r). lia.
Qed.

(** *** Creating an order *)

Lemma accepted_all (xs : list CartItem) : accepted (map Some xs) = xs.
Proof. induction xs as [|i xs IH]; simpl; [reflexivity | now rewrite IH]. Qed.

Lemma all_present_all (xs : list CartItem) : all_present (map Some xs) = true.
Proof. induction xs as [|i xs IH]; simpl; [reflexivity | exact IH]. Qed.

Lemma accepted_until_null (xs : list CartItem) (rest : list (option CartItem)) :
  accepted (map Some xs ++ None :: rest) = xs.
Proof. induction xs as [|i xs IH]; simpl; [reflexivity | now rewrite IH]. Qed.

Lemma all_present_null (xs : list CartItem) (rest : list (option CartItem)) :
  all_present (map Some xs ++ None :: rest) = false.
Proof. induction xs as [|i xs IH]; simpl; [reflexivity | exact IH]. Qed.

(** The loop over the items writes a row for each item up to the first
    [null], and throws there; rows already written stay. *)
Lemma forEach_insert_line
    (orderId : Z) (xs : list (option CartItem)) (db : Database) :
  let res := forEach (insert_line orderId) xs db in
  users (fst res) = users db /\
  orders (fst res) = orders db /\
  order_items (fst res)
    = order_items db ++
      item_rows orderId
        (next_rowid (seq_order_items db) (map order_items_id (order_items db)))
        (accepted xs) /\
  snd res
    = if all_present xs then Returned tt
      else Thrown (TypeError "Cannot read properties of null (reading 'id')").
Proof.
  revert db. induction xs as [|[i|] rest IH]; intros db.
  - simpl. now rewrite app_nil_r.
  - cbn [forEach]. unfold bind. cbn [insert_line]. unfold insertItem.
    cbv beta iota zeta.
    match goal with |- context [forEach _ rest ?d] => specialize (IH d) end.
    cbv zeta in IH. destruct IH as [U [O [I R]]].
    cbn [users orders order_items seq_order_items] in *.
    rewrite map_app in I. cbn [map order_items_id] in I.
    rewrite next_rowid_after in I.
    repeat split; try assumption.
    rewrite I, <- app_assoc. reflexivity.
  - simpl. now rewrite app_nil_r.
Qed.

(** C5, as the code has it. [POST /api/orders] always writes one [orders]
    row with status "pending". When every item is an object it then writes
    one [order_items] row per item, in order, and answers with success and
    the new order's id. When an item is [null] the request fails with a 500,
    and the header row and the rows of the items before that one stay in the
    database: nothing is rolled back. *)
Theorem createOrder_effect (req : OrdersBody) (now : Z) (db : Database) :
  let orderId := next_rowid (seq_orders db) (map orders_id (orders db)) in
  let first_item :=
    next_rowid (seq_order_items db) (map order_items_id (order_items db)) in
  let db' := fst (handle (post_orders req now) db) in
  let r := snd (handle (post_orders req now) db) in
  users db' = users db /\
  orders db'
    = orders db ++
      [mkOrderRow orderId (userId_or_1 (userId req)) (total req) "pending" now] /\
  (forall xs : list CartItem,
      items req = map Some xs ->
      r = mkResponse 200 (OrderCreated true orderId) /\
      order_items db' = order_items db ++ item_rows orderId first_item xs) /\
  (forall (xs : list CartItem) (rest : list (option CartItem)),
      items req = map Some xs ++ None :: rest ->
      status r = 500 /\
      order_items db' = order_items db ++ item_rows orderId first_item xs).
Proof.
  cbv zeta. unfold handle, post_orders, bind, insert_order.
  cbv beta iota zeta.
  match goal with
  | |- context [forEach (insert_line ?o) (items req) ?d] =>
      pose proof (forEach_insert_line o (items req) d) as L;
      destruct (forEach (insert_line o) (items req) d) as [db1 out]
  end.
  cbv zeta in L. cbn [fst snd users orders order_items seq_order_items] in L.
  destruct L as [U [O [I R]]].
  repeat split.
  - destruct out; exact U.
  - destruct out; exact O.
  - rewrite H, all_present_all in R. now subst out.
  - rewrite H, accepted_all in I. destruct out; exact I.
  - rewrite H, all_present_null in R. now subst out.
  - rewrite H, accepted_until_null in I. destruct out; exact I.
Qed.

Lemma createOrder_effect_witness :
  snd (handle (post_orders order_of_two_lines 0) empty_db)
    = mkResponse 200 (OrderCreated true 1) /\
  order_items (fst (handle (post_orders order_of_two_lines 0) empty_db))
    = [mkOrderItemRow 1 1 1 1 33; mkOrderItemRow 2 1 2 2 45].
Proof.
  pose proof (createOrder_effect order_of_two_lines 0 empty_db) as H.
  cbv zeta in H. destruct H as [_ [_ [H _]]].
  apply (H [mkCartItem milk 1; mkCartItem bread 2]).
  reflexivity.
Defined.

(** C5, as the specification words it, fails. A request whose second item
    is [null] is answered with a 500, yet the order header and the row of
    the first item remain stored. *)
Lemma createOrder_partial_order :
  let res := handle (post_orders order_with_null_item 0) empty_db in
  status (snd res) = 500 /\
  orders (fst res) = [mkOrderRow 1 7 125 "pending" 0] /\
  order_items (fst res) = [mkOrderItemRow 1 1 1 1 33] /\
  ~ createOrder_atomic.
Proof.
  repeat split.
  intros H. specialize (H order_with_null_item 0 empty_db).
  vm_compute in H. destruct H as [H _]; [discriminate | discriminate].
Qed.

(** *** Registering a user *)

Lemma email_absent (e : string) (rows : list UserRow) :
  (forall u, In u rows -> users_email u <> e) ->
  existsb (fun u => (users_email u =? e)%string) rows = false.
Proof.
  induction rows as [|u rows IH]; simpl; intros H; [reflexivity|].
  rewrite IH by auto.
  destruct (String.eqb_spec (users_email u) e) as [E|]; [|reflexivity].
  exfalso. now apply (H u); [left|].
Qed.

Lemma email_count_absent (e : string) (rows : list UserRow) :
  (forall u, In u rows -> users_email u <> e) ->
  filter (fun u => (users_email u =? e)%string) rows = [].
Proof.
  induction rows as [|u rows IH]; simpl; intros H; [reflexivity|].
  destruct (String.eqb_spec (users_email u) e) as [E|].
  - exfalso. now apply (H u); [left|].
  - auto.
Qed.

Lemma find_new_row (rowid : Z) (row : UserRow) (rows : list UserRow) :
  (forall u, In u rows -> users_id u < rowid) ->
  users_id row = rowid ->
  find (fun u => users_id u =? rowid) (rows ++ [row]) = Some row.
Proof.
  induction rows as [|u rows IH]; simpl; intros H E.
  - apply Z.eqb_eq in E. now rewrite E.
  - pose proof (H u (or_introl eq_refl)).
    replace (users_id u =? rowid) with false by (symmetry; apply Z.eqb_neq; lia).
    apply IH; auto.
Qed.

(** C6. Registering an email the [users] table does not hold succeeds and
    stores one row; registering the same email again, with whatever
    password and name, is answered with 400 "Email already exists" and
    leaves the database as the first call left it, so the table holds
    exactly one row with that email. *)
Theorem register_twice (db : Database) (e pw n pw' n' : string) :
  (forall u, In u (users db) -> users_email u <> e) ->
  let rowid := next_rowid (seq_users db) (map users_id (users db)) in
  let first := handle (post_register (mkRegisterBody e pw n)) db in
  let second := handle (post_register (mkRegisterBody e pw' n')) (fst first) in
  snd first = mkResponse 200 (UserCreated true (Some (mkUserData rowid e n))) /\
  users (fst first) = users db ++ [mkUserRow rowid e pw n] /\
  snd second = mkResponse 400 (Failure false "Email already exists") /\
  fst second = fst first /\
  filter (fun u => (users_email u =? e)%string) (users (fst second))
    = [mkUserRow rowid e pw n].
Proof.
  intros Hnew. cbv zeta.
  set (rowid := next_rowid (seq_users db) (map users_id (users db))).
  assert (F : handle (post_register (mkRegisterBody e pw n)) db
              = (mkDatabase (users db ++ [mkUserRow rowid e pw n])
                            (orders db) (order_items db)
                            rowid (seq_orders db) (seq_order_items db),
                 mkResponse 200 (UserCreated true (Some (mkUserData rowid e n))))).
  { unfold handle, post_register, try_catch, bind, insert_user, select_user.
    cbn [email password name]. rewrite (email_absent e _ Hnew).
    cbv beta iota zeta. cbn [users]. fold rowid.
    rewrite (find_new_row rowid (mkUserRow rowid e pw n)); [reflexivity | | reflexivity].
    intros u Hu. apply next_rowid_fresh.
    now apply (in_map users_id). }
  rewrite F. cbn [fst snd users].
  assert (S : handle (post_register (mkRegisterBody e pw' n'))
                (mkDatabase (users db ++ [mkUserRow rowid e pw n])
                            (orders db) (order_items db)
                            rowid (seq_orders db) (seq_order_items db))
              = (mkDatabase (users db ++ [mkUserRow rowid e pw n])
                            (orders db) (order_items db)
                            rowid (seq_orders db) (seq_order_items db),
                 mkResponse 400 (Failure false "Email already exists"))).
  { unfold handle, post_register, try_catch, bind, insert_user.
    cbn [email password name users]. rewrite existsb_app. cbn [existsb users_email].
    rewrite String.eqb_refl, orb_true_r. reflexivity. }
  rewrite S. cbn [fst snd users].
  repeat split.
  rewrite filter_app, (email_count_absent e _ Hnew). cbn [filter users_email app].
  now rewrite String.eqb_refl.
Qed.

Lemma register_twice_witness :
  snd (handle (post_register (mkRegisterBody "asha@example.com" "s3cret" "Asha"))
         empty_db)
    = mkResponse 200 (UserCreated true (Some (mkUserData 1 "asha@example.com" "Asha"))) /\
  snd (handle (post_register (mkRegisterBody "asha@example.com" "other" "A."))
         (fst (handle
                 (post_register (mkRegisterBody "asha@example.com" "s3cret" "Asha"))
                 empty_db)))
    = mkResponse 400 (Failure false "Email already exists").
Proof.
  pose proof (register_twice empty_db "asha@example.com" "s3cret" "Asha" "other" "A.")
    as H.
  cbv zeta in H. destruct H as [H1 [_ [H3 _]]].
  - simpl. intros u [].
  - split; [exact H1 | exact H3].
Defined.

End ServerFacts.

(** * Further properties of the cart *)

Lemma sum_lines_app (f : CartItem -> Z) (a b : Cart) :
  sum_lines f (a ++ b) = sum_lines f a + sum_lines f b.
Proof. induction a as [|item a IH]; simpl; [reflexivity | rewrite IH; lia]. Qed.

Lemma cartTotal_sum (c : Cart) :
  cartTotal c = sum_lines (fun item => price item * quantity item) c.
Proof.
  unfold cartTotal.
  now rewrite (fold_left_sum (fun item => price item * quantity item)).
Qed.

Lemma cartCount_sum (c : Cart) : cartCount c = sum_lines quantity c.
Proof. unfold cartCount. now rewrite (fold_left_sum quantity). Qed.

(** With one line per id, the cart splits around the line [find] returns. *)
Lemma split_at_line (x : Z) (c : Cart) (e : CartItem) :
  NoDup (ids c) ->
  find (has_id x) c = Some e ->
  exists before after : Cart,
    c = before ++ e :: after /\
    ~ In x (ids before) /\ ~ In x (ids after).
Proof.
  intros ND F. apply find_present in F. destruct F as [Hin Hid].
  destruct (in_split e c Hin) as [before [after ->]].
  exists before, after. split; [reflexivity|].
  unfold ids in ND. rewrite map_app in ND. simpl in ND.
  apply NoDup_remove_2 in ND. rewrite in_app_iff, Hid in ND.
  unfold ids. tauto.
Qed.

Lemma on_line_here (x d : Z) (e : CartItem) :
  id e = x -> on_line x d e = bump d e.
Proof. intros H. unfold on_line. apply has_id_true in H. now rewrite H. Qed.

Lemma filter_here (x : Z) (before after : Cart) (e : CartItem) :
  id e = x -> ~ In x (ids before) -> ~ In x (ids after) ->
  filter (fun item => negb (has_id x item)) (before ++ e :: after)
    = before ++ after.
Proof.
  intros He Hb Ha. rewrite filter_app. simpl.
  apply has_id_true in He. rewrite He. simpl.
  now rewrite !filter_absent.
Qed.

(** X1. On a cart with one line per id, [addToCart] raises the item count
    by one and the total by one unit price: the price stored in the line
    when the product is already in the cart, the product's price when the
    line is new. *)
Theorem addToCart_totals (p : Product) (c : Cart) :
  NoDup (ids c) ->
  cartCount (addToCart p c) = cartCount c + 1 /\
  cartTotal (addToCart p c)
    = cartTotal c +
      match find (has_id (id p)) c with
      | Some line => price line
      | None => price p
      end.
Proof.
  intros ND. rewrite !cartCount_sum, !cartTotal_sum.
  destruct (find (has_id (id p)) c) as [e|] eqn:F.
  - destruct (split_at_line _ _ _ ND F) as [before [after [-> [Hb Ha]]]].
    apply find_present in F. destruct F as [_ Hid].
    rewrite addToCart_present
      by (unfold ids; rewrite map_app, in_app_iff; simpl; auto).
    rewrite map_app. simpl. rewrite !map_on_line_absent by assumption.
    rewrite (on_line_here _ _ _ Hid), !sum_lines_app. unfold bump. simpl.
    split; lia.
  - apply find_absent in F. rewrite addToCart_absent by assumption.
    rewrite !sum_lines_app. simpl. split; lia.
Qed.

Lemma addToCart_totals_witness :
  cartCount (addToCart milk_repriced [mkCartItem bread 1; mkCartItem milk 2])
    = cartCount [mkCartItem bread 1; mkCartItem milk 2] + 1 /\
  cartTotal (addToCart milk_repriced [mkCartItem bread 1; mkCartItem milk 2])
    = cartTotal [mkCartItem bread 1; mkCartItem milk 2] + 33.
Proof.
  apply (addToCart_totals milk_repriced [mkCartItem bread 1; mkCartItem milk 2]).
  repeat constructor; simpl; intuition discriminate.
Defined.

(** X2. On a cart that keeps the invariant, [removeFromCart] of a product
    that has a line lowers the item count by one and the total by the unit
    price stored in that line. *)
Theorem removeFromCart_totals (x : Z) (c : Cart) (line : CartItem) :
  CartInv c ->
  find (has_id x) c = Some line ->
  cartCount (removeFromCart x c) = cartCount c - 1 /\
  cartTotal (removeFromCart x c) = cartTotal c - price line.
Proof.
  intros [ND Q] F. rewrite !cartCount_sum, !cartTotal_sum.
  destruct (split_at_line _ _ _ ND F) as [before [after [E [Hb Ha]]]].
  pose proof (find_present _ _ _ F) as [Hin Hid].
  rewrite Forall_forall in Q. specialize (Q line Hin).
  unfold removeFromCart. rewrite F. cbv zeta. subst c.
  destruct (1 <? quantity line) eqn:G.
  - rewrite map_app. simpl. rewrite !map_on_line_absent by assumption.
    rewrite (on_line_here _ _ _ Hid), !sum_lines_app. unfold bump. simpl.
    split; lia.
  - apply Z.ltb_ge in G. assert (quantity line = 1) by lia.
    rewrite (filter_here _ _ _ _ Hid Hb Ha), !sum_lines_app. simpl.
    split; nia.
Qed.

Lemma removeFromCart_totals_witness :
  cartCount (removeFromCart 2 [mkCartItem bread 1; mkCartItem milk 2])
    = cartCount [mkCartItem bread 1; mkCartItem milk 2] - 1 /\
  cartTotal (removeFromCart 2 [mkCartItem bread 1; mkCartItem milk 2])
    = cartTotal [mkCartItem bread 1; mkCartItem milk 2] - 45.
Proof.
  apply (removeFromCart_totals 2 [mkCartItem bread 1; mkCartItem milk 2]
           (mkCartItem bread 1)).
  - split; repeat constructor; simpl; intuition (try discriminate; try lia).
  - reflexivity.
Defined.

Lemma find_append (f : CartItem -> bool) (a b : Cart) :
  find f (a ++ b) = match find f a with
                    | Some e => Some e
                    | None => find f b
                    end.
Proof.
  induction a as [|item a IH]; simpl; [reflexivity|].
  now destruct (f item).
Qed.

Lemma on_line_other (x y d : Z) (item : CartItem) :
  id item = x -> x <> y -> on_line y d item = item.
Proof.
  intros Hx Hne. unfold on_line.
  replace (has_id y item) with false; [reflexivity|].
  symmetry. apply has_id_false. congruence.
Qed.

Lemma find_on_line_other (x y d : Z) (c : Cart) :
  x <> y -> find (has_id x) (map (on_line y d) c) = find (has_id x) c.
Proof.
  intros Hne. induction c as [|item rest IH]; simpl; [reflexivity|].
  rewrite has_id_on_line. destruct (has_id x item) eqn:E; [|exact IH].
  apply has_id_true in E. now rewrite (on_line_other x y d item).
Qed.

Lemma find_filter_other (x y : Z) (c : Cart) :
  x <> y ->
  find (has_id x) (filter (fun item => negb (has_id y item)) c)
    = find (has_id x) c.
Proof.
  intros Hne. induction c as [|item rest IH]; simpl; [reflexivity|].
  destruct (has_id y item) eqn:Ey; simpl.
  - replace (has_id x item) with false; [exact IH|].
    symmetry. apply has_id_false. apply has_id_true in Ey. congruence.
  - now destruct (has_id x item).
Qed.

Lemma find_filter_same (x : Z) (c : Cart) :
  find (has_id x) (filter (fun item => negb (has_id x item)) c) = None.
Proof.
  induction c as [|item rest IH]; simpl; [reflexivity|].
  destruct (has_id x item) eqn:E; simpl; [exact IH|]. now rewrite E.
Qed.

(** X3. The quantity shown for a product follows the buttons. After
    [addToCart p] it is one more than before for [p.id] (1 when there was no
    line) and the same for every other id. After [removeFromCart y] it is
    one less for [y] when it was above 1, absent for [y] otherwise, and the
    same for every other id. No assumption on the cart is needed. *)
Theorem quantityInCart_after (x : Z) (c : Cart) :
  (forall p : Product,
      quantityInCart x (addToCart p c)
        = if x =? id p
          then Some (match quantityInCart x c with
                     | Some q => q + 1
                     | None => 1
                     end)
          else quantityInCart x c) /\
  (forall y : Z,
      quantityInCart x (removeFromCart y c)
        = if x =? y
          then match quantityInCart x c with
               | Some q => if 1 <? q then Some (q - 1) else None
               | None => None
               end
          else quantityInCart x c).
Proof.
  unfold quantityInCart. split.
  - intros p. destruct (Z.eqb_spec x (id p)) as [-> | Hne].
    + unfold addToCart. destruct (find (has_id (id p)) c) as [e|] eqn:F.
      * rewrite find_map_on_line, F. simpl.
        apply find_present in F. destruct F as [_ Hid].
        now rewrite (on_line_here _ _ _ Hid).
      * rewrite find_append, F. simpl. unfold has_id. simpl.
        now rewrite Z.eqb_refl.
    + unfold addToCart. destruct (find (has_id (id p)) c) as [e|] eqn:F.
      * now rewrite find_on_line_other.
      * rewrite find_append. destruct (find (has_id x) c); [reflexivity|].
        simpl. unfold has_id. simpl.
        replace (id p =? x) with false; [reflexivity|].
        symmetry. apply Z.eqb_neq. congruence.
  - intros y. unfold removeFromCart.
    destruct (Z.eqb_spec x y) as [-> | Hne].
    + destruct (find (has_id y) c) as [e|] eqn:F; simpl.
      * destruct (1 <? quantity e) eqn:G.
        -- rewrite find_map_on_line, F. simpl.
           apply find_present in F. destruct F as [_ Hid].
           now rewrite (on_line_here _ _ _ Hid).
        -- now rewrite find_filter_same.
      * now rewrite find_filter_same.
    + destruct (match find (has_id y) c with
                | Some e => 1 <? quantity e
                | None => false
                end).
      * now rewrite find_on_line_other.
      * now rewrite find_filter_other.
Qed.

Lemma filter_others_on_line (x d : Z) (c : Cart) :
  filter (fun item => negb (has_id x item)) (map (on_line x d) c)
    = filter (fun item => negb (has_id x item)) c.
Proof.
  induction c as [|item rest IH]; simpl; [reflexivity|].
  rewrite has_id_on_line. destruct (has_id x item) eqn:E; simpl; [exact IH|].
  f_equal; [unfold on_line; now rewrite E | exact IH].
Qed.

Lemma filter_twice (f : CartItem -> bool) (c : Cart) :
  filter f (filter f c) = filter f c.
Proof.
  induction c as [|item rest IH]; simpl; [reflexivity|].
  destruct (f item) eqn:E; simpl; [rewrite E, IH|]; auto.
Qed.

(** X4. Neither button touches the lines of another product: the lines
    whose id differs from the one acted on are the same lines, in the same
    order, before and after [addToCart] and [removeFromCart], on any cart. *)
Theorem other_lines_untouched (c : Cart) :
  (forall p : Product,
      filter (fun item => negb (has_id (id p) item)) (addToCart p c)
        = filter (fun item => negb (has_id (id p) item)) c) /\
  (forall x : Z,
      filter (fun item => negb (has_id x item)) (removeFromCart x c)
        = filter (fun item => negb (has_id x item)) c).
Proof.
  split.
  - intros p. unfold addToCart. destruct (find (has_id (id p)) c).
    + apply filter_others_on_line.
    + rewrite filter_app. simpl. unfold has_id at 2. simpl.
      rewrite Z.eqb_refl. simpl. apply app_nil_r.
  - intros x. unfold removeFromCart.
    destruct (match find (has_id x) c with
              | Some e => 1 <? quantity e
              | None => false
              end).
    + apply filter_others_on_line.
    + apply filter_twice.
Qed.

Lemma sum_lines_positive (c : Cart) :
  Forall (fun item => 1 <= quantity item) c ->
  Z.of_nat (List.length c) <= sum_lines quantity c.
Proof.
  induction 1 as [|item rest H _ IH]; [simpl; lia|].
  cbn [List.length sum_lines]. lia.
Qed.

(** X5. In every state the cart can reach, the item count is at least the
    number of lines, so the count the header and the bottom bar test
    ([cartCount > 0]) and the length the sidebar and the checkout page test
    ([cart.length > 0]) agree on whether the cart is empty. *)
Theorem count_agrees_with_length (actions : list CartAction) :
  Z.of_nat (List.length (run actions)) <= cartCount (run actions) /\
  ((0 <? cartCount (run actions)) = (0 <? List.length (run actions))%nat) /\
  (cartCount (run actions) = 0 <-> run actions = []).
Proof.
  pose proof (fold_step_inv actions [] CartInv_nil) as [_ Q].
  fold (run actions) in Q. rewrite cartCount_sum.
  pose proof (sum_lines_positive _ Q) as L.
  destruct (run actions) as [|item rest] eqn:E.
  - simpl. repeat split; reflexivity.
  - cbn [List.length] in *. split; [exact L|]. split.
    + apply Z.ltb_lt. lia.
    + split; [lia | discriminate].
Qed.

(** * Further properties of product discovery *)

Lemma set_add_in (seen : list string) (x y : string) :
  In y (set_add seen x) <-> In y seen \/ y = x.
Proof.
  unfold set_add. destruct (existsb (String.eqb x) seen) eqn:E.
  - apply existsb_exists in E. destruct E as [z [Hz Ez]].
    apply String.eqb_eq in Ez. subst z.
    split; [auto | intros [H | ->]; assumption].
  - rewrite in_app_iff. simpl. intuition.
Qed.

Lemma set_add_nodup (seen : list string) (x : string) :
  NoDup seen -> NoDup (set_add seen x).
Proof.
  intros ND. unfold set_add. destruct (existsb (String.eqb x) seen) eqn:E.
  - exact ND.
  - apply NoDup_app; [exact ND | repeat constructor; simpl; tauto |].
    intros y Hy [Ey | []]. subst y.
    assert (existsb (String.eqb x) seen = true); [|congruence].
    apply existsb_exists. exists x. split; [exact Hy | apply String.eqb_refl].
Qed.

Lemma fold_set_add_in (xs seen : list string) (y : string) :
  In y (fold_left set_add xs seen) <-> In y seen \/ In y xs.
Proof.
  revert seen. induction xs as [|x xs IH]; intros seen; simpl.
  - tauto.
  - rewrite IH, set_add_in. intuition.
Qed.

Lemma fold_set_add_nodup (xs seen : list string) :
  NoDup seen -> NoDup (fold_left set_add xs seen).
Proof.
  revert seen. induction xs as [|x xs IH]; intros seen ND; simpl.
  - exact ND.
  - apply IH. now apply set_add_nodup.
Qed.

Lemma includes_empty (s : string) : includes s "" = true.
Proof. destruct s; reflexivity. Qed.

Lemma filter_all (A : Type) (f : A -> bool) (l : list A) :
  (forall x, In x l -> f x = true) -> filter f l = l.
Proof.
  induction l as [|x l IH]; simpl; intros H; [reflexivity|].
  rewrite (H x) by auto. f_equal. apply IH. auto.
Qed.

Section DiscoveryMore.

Context {rt : Runtime} (Hrt : RuntimeSpec rt).

Lemma matchesSearch_empty (p : Product) : matchesSearch "" p = true.
Proof.
  unfold matchesSearch.
  rewrite (toLowerCase_ascii rt Hrt "" eq_refl). simpl.
  now rewrite includes_empty.
Qed.

(** X6. The category chips of the home page: after "All" come the
    categories of the products, each once. A category is listed exactly when
    some product has it; with an empty search box "All" shows the whole
    catalogue, and every chip of a non-empty catalogue shows at least one
    product. *)
Theorem category_chips (products : list Product) :
  NoDup (fromSet (map category products)) /\
  (forall c, In c (categories products) <->
             c = "All" \/ exists p, In p products /\ category p = c) /\
  filteredProducts products "" "All" = products /\
  (forall c, In c (categories products) -> products <> [] ->
             filteredProducts products "" c <> []).
Proof.
  assert (M : forall c, In c (categories products) <->
                        c = "All" \/ exists p, In p products /\ category p = c).
  { intros c. unfold categories, fromSet. simpl.
    rewrite fold_set_add_in, in_map_iff. simpl.
    split.
    - intros [H | [[] | [p [E H]]]]; [left; auto | right; now exists p].
    - intros [H | [p [H E]]]; [left; auto | right; right; now exists p]. }
  assert (A : filteredProducts products "" "All" = products).
  { unfold filteredProducts. apply filter_all. intros p _.
    now rewrite matchesSearch_empty. }
  repeat split.
  - unfold fromSet. apply fold_set_add_nodup. constructor.
  - apply M.
  - apply M.
  - exact A.
  - intros c Hc Hne. apply M in Hc. destruct Hc as [-> | [p [Hp E]]].
    + now rewrite A.
    + intros Hnil.
      assert (Hin : In p (filteredProducts products "" c)).
      { unfold filteredProducts. apply filter_In. split; [exact Hp|].
        rewrite matchesSearch_empty. unfold matchesCategory.
        rewrite E, String.eqb_refl. apply orb_true_r. }
      rewrite Hnil in Hin. contradiction.
Qed.

Lemma contains_ci_part (s before q after : string) :
  ascii_text s = true ->
  ascii_text (before ++ q ++ after)%string = true ->
  contains_ci s (before ++ q ++ after)%string -> contains_ci s q.
Proof.
  intros Hs Hq. pose proof Hq as Hq'.
  rewrite !ascii_text_app, !andb_true_iff in Hq'. destruct Hq' as [_ [Hq' _]].
  rewrite <- !includes_ci.
  rewrite !(toLowerCase_ascii rt Hrt) by assumption.
  rewrite !includes_iff. intros [b [a H]].
  exists (b ++ ascii_lower before)%string, (ascii_lower after ++ a)%string.
  rewrite H, !ascii_lower_app, !append_assoc. reflexivity.
Qed.

(** X7. On ASCII text, typing more narrows the result: a product found
    for a query is found for every part of that query, and a product found
    under a category chip is found under "All". *)
Theorem search_narrows (products : list Product)
    (before q after active : string) (p : Product) :
  ascii_text (before ++ q ++ after)%string = true ->
  ascii_text (name p) = true ->
  ascii_text (category p) = true ->
  In p (filteredProducts products (before ++ q ++ after)%string active) ->
  In p (filteredProducts products q active) /\
  In p (filteredProducts products q "All").
Proof.
  intros Hq Hn Hcat. unfold filteredProducts. rewrite !filter_In, !andb_true_iff.
  rewrite !matchesSearch_iff. intros [Hp [Hs Hc]].
  assert (contains_ci (name p) q \/ contains_ci (category p) q)
    by (destruct Hs; [left | right]; eapply contains_ci_part; eassumption).
  repeat split; auto.
Qed.

End DiscoveryMore.

Lemma category_chips_witness :
  filteredProducts (rt := ascii_runtime) seedProducts "" "Bakery" <> [].
Proof.
  apply (category_chips ascii_runtime_spec seedProducts).
  - simpl. auto.
  - discriminate.
Defined.

Lemma search_narrows_witness :
  In milk (filteredProducts (rt := ascii_runtime) seedProducts "gold" "Dairy") /\
  In milk (filteredProducts (rt := ascii_runtime) seedProducts "gold" "All").
Proof.
  apply (search_narrows ascii_runtime_spec seedProducts
           "amul " "gold" " m" "Dairy" milk); try reflexivity.
  vm_compute. auto.
Defined.

(** ** The search route against the client's filter *)












(** With a wildcard in the query the two differ: [_] stands for any
    character on the server and for itself in the client. *)
Example search_route_wildcard :
  get_products_search "g_ld" seedProducts = [milk; bread] /\
  filteredProducts (rt := ascii_runtime) seedProducts "g_ld" "All" = [].
Proof. split; reflexivity. Qed.

(** * The suggestion list *)

Lemma split_cons (sep : ascii) (s : string) :
  exists word words, split sep s = word :: words.
Proof.
  induction s as [|c s [w [ws IH]]]; simpl.
  - now exists "", [].
  - destruct (c =? sep)%char; [now exists "", (split sep s)|].
    rewrite IH. now exists (String c w), ws.
Qed.

Lemma split_length (sep : ascii) (s : string) :
  List.length (split sep s)
    = S (count_occ ascii_dec (list_ascii_of_string s) sep).
Proof.
  induction s as [|c s IH]; simpl; [reflexivity|].
  destruct (Ascii.eqb_spec c sep) as [-> | Hne].
  - destruct (ascii_dec sep sep); [|congruence]. simpl. now rewrite IH.
  - destruct (ascii_dec c sep); [congruence|].
    destruct (split_cons sep s) as [w [ws E]]. rewrite E in *. exact IH.
Qed.

Lemma split_words (sep : ascii) (s : string) :
  Forall (fun word => ~ In sep (list_ascii_of_string word)) (split sep s).
Proof.
  induction s as [|c s IH]; simpl.
  - repeat constructor. simpl. tauto.
  - destruct (Ascii.eqb_spec c sep) as [-> | Hne].
    + constructor; [simpl; tauto | exact IH].
    + destruct (split_cons sep s) as [w [ws E]]. rewrite E in *.
      inversion IH as [|? ? Hw Hws]; subst. constructor; [|exact Hws].
      simpl. intros [H | H]; [congruence | auto].
Qed.

Lemma concat_head (sep : string) (c : ascii) (w : string) (ws : list string) :
  String.concat sep (String c w :: ws) = String c (String.concat sep (w :: ws)).
Proof. destruct ws; reflexivity. Qed.

Lemma split_join (sep : ascii) (s : string) :
  String.concat (String sep "") (split sep s) = s.
Proof.
  induction s as [|c s IH]; [reflexivity|]. cbn [split].
  destruct (split_cons sep s) as [w [ws E]]. rewrite E in *.
  destruct (Ascii.eqb_spec c sep) as [-> | Hne].
  - change (String.concat (String sep "") ("" :: w :: ws))
      with (String sep (String.concat (String sep "") (w :: ws))).
    now rewrite IH.
  - rewrite concat_head. now rewrite IH.
Qed.

Lemma trimStart_again (s : string) : trimStart (trimStart s) = trimStart s.
Proof.
  induction s as [|c s IH]; simpl; [reflexivity|].
  destruct (is_space c) eqn:E; [exact IH|]. simpl. now rewrite E.
Qed.

Lemma trimEnd_again (s : string) : trimEnd (trimEnd s) = trimEnd s.
Proof.
  induction s as [|c s IH]; simpl; [reflexivity|].
  destruct (trimEnd s) as [|d kept] eqn:E.
  - destruct (is_space c) eqn:Ec; simpl; [reflexivity | now rewrite Ec].
  - cbn [trimEnd] in *. now rewrite IH.
Qed.

(** [trimEnd] keeps the first character of what it keeps. *)
Lemma trimEnd_keeps_start (s : string) :
  trimStart s = s -> trimStart (trimEnd s) = trimEnd s.
Proof.
  destruct s as [|c s]; [reflexivity|]. simpl.
  destruct (is_space c) eqn:E.
  - intros H. exfalso.
    assert (L : forall t, (String.length (trimStart t) <= String.length t)%nat).
    { induction t as [|d t IHt]; simpl; [lia|].
      destruct (is_space d); simpl; lia. }
    specialize (L s). rewrite H in L. simpl in L. lia.
  - intros _. destruct (trimEnd s); simpl; now rewrite E.
Qed.

Lemma ascii_trim_start (s : string) : trimStart (ascii_trim s) = ascii_trim s.
Proof. unfold ascii_trim. apply trimEnd_keeps_start, trimStart_again. Qed.

Lemma ascii_trim_end (s : string) : trimEnd (ascii_trim s) = ascii_trim s.
Proof. unfold ascii_trim. apply trimEnd_again. Qed.

Lemma trimStart_length (s : string) :
  (String.length (trimStart s) <= String.length s)%nat.
Proof.
  induction s as [|c s IH]; simpl; [lia|]. destruct (is_space c); simpl; lia.
Qed.

Lemma trimEnd_length (s : string) :
  (String.length (trimEnd s) <= String.length s)%nat.
Proof.
  induction s as [|c s IH]; simpl; [lia|].
  destruct (trimEnd s); [destruct (is_space c)|]; simpl in *; lia.
Qed.

(** A string that [trimStart] leaves alone does not begin with a blank. *)
Lemma trimStart_head (e : string) (c : ascii) (rest : string) :
  trimStart e = e -> e = String c rest -> is_space c = false.
Proof.
  intros H ->. simpl in H. destruct (is_space c); [|reflexivity].
  pose proof (trimStart_length rest) as L. rewrite H in L. simpl in L. lia.
Qed.

Lemma trimEnd_drop_blank (init : string) (c : ascii) :
  is_space c = true -> trimEnd (init ++ String c "")%string = trimEnd init.
Proof.
  intros Hc. induction init as [|d init IH]; simpl.
  - now rewrite Hc.
  - now rewrite IH.
Qed.

Lemma length_append (a b : string) :
  String.length (a ++ b)%string = (String.length a + String.length b)%nat.
Proof. induction a as [|c a IH]; simpl; [reflexivity | now rewrite IH]. Qed.

(** A string that [trimEnd] leaves alone does not end with a blank. *)
Lemma trimEnd_last (e init : string) (c : ascii) :
  trimEnd e = e -> e = (init ++ String c "")%string -> is_space c = false.
Proof.
  intros H ->. destruct (is_space c) eqn:Hc; [|reflexivity].
  rewrite (trimEnd_drop_blank init c Hc) in H.
  pose proof (trimEnd_length init) as L. rewrite H, length_append in L.
  simpl in L. lia.
Qed.

Lemma trimStart_commas (u : string) :
  In ","%char (list_ascii_of_string (trimStart u)) ->
  In ","%char (list_ascii_of_string u).
Proof.
  induction u as [|c u IH]; simpl; [tauto|].
  destruct (is_space c); simpl; auto.
Qed.

Lemma trimEnd_commas (u : string) :
  In ","%char (list_ascii_of_string (trimEnd u)) ->
  In ","%char (list_ascii_of_string u).
Proof.
  induction u as [|c u IH]; simpl; [tauto|].
  destruct (trimEnd u) as [|d kept].
  - destruct (is_space c); simpl; tauto.
  - simpl in *. intros [H | H]; auto.
Qed.

Lemma split_ascii (sep : ascii) (t : string) :
  ascii_text t = true -> Forall (fun w => ascii_text w = true) (split sep t).
Proof.
  induction t as [|c t IH]; simpl; intros H.
  - repeat constructor.
  - apply andb_true_iff in H. destruct H as [Hc Ht]. specialize (IH Ht).
    destruct (c =? sep)%char; [constructor; [reflexivity | exact IH]|].
    destruct (split sep t) as [|w ws]; [repeat constructor; simpl; now rewrite Hc|].
    inversion IH as [|? ? Hw Hws]; subst.
    constructor; [simpl; now rewrite Hc, Hw | exact Hws].
Qed.

Lemma split_clean (sep : ascii) (n : string) :
  ~ In sep (list_ascii_of_string n) -> split sep n = [n].
Proof.
  induction n as [|c n IH]; simpl; intros H; [reflexivity|].
  destruct (Ascii.eqb_spec c sep) as [-> | Hne]; [exfalso; auto|].
  rewrite IH by tauto. reflexivity.
Qed.

Lemma split_at_sep (sep : ascii) (n rest : string) :
  ~ In sep (list_ascii_of_string n) ->
  split sep (n ++ String sep rest)%string = n :: split sep rest.
Proof.
  induction n as [|c n IH]; simpl; intros H.
  - now rewrite Ascii.eqb_refl.
  - destruct (Ascii.eqb_spec c sep) as [-> | Hne]; [exfalso; auto|].
    rewrite IH by tauto. reflexivity.
Qed.

Section SuggestionFacts.

Context {rt : Runtime} (Hrt : RuntimeSpec rt).

(** X9. When the service's response has a text, the suggestion list has
    one entry more than the text has commas, so it is never empty (an empty
    text gives one empty suggestion); a response without text gives the
    empty list. When the text is ASCII, no entry contains a comma, and no
    entry begins or ends with a white-space character. *)
Theorem suggestions_shape (t : string) :
  List.length (suggestions (Some t))
    = S (count_occ ascii_dec (list_ascii_of_string t) ","%char) /\
  suggestions (Some "") = [""%string] /\
  suggestions None = [] /\
  (ascii_text t = true ->
   Forall (fun entry =>
             ~ In ","%char (list_ascii_of_string entry) /\
             (forall c rest, entry = String c rest -> is_space c = false) /\
             (forall init c,
                 entry = (init ++ String c "")%string -> is_space c = false))
          (suggestions (Some t))).
Proof.
  unfold suggestions. rewrite length_map, split_length.
  split; [reflexivity|]. split; [|split; [reflexivity|]].
  - simpl. now rewrite (trim_ascii rt Hrt "" eq_refl).
  - intros Ht. apply Forall_map.
    pose proof (split_words "," t) as W. pose proof (split_ascii "," t Ht) as A.
    rewrite Forall_forall in *. intros word Hin.
    rewrite (trim_ascii rt Hrt word (A word Hin)). repeat split.
    + intros Hc. apply (W word Hin). unfold ascii_trim in Hc.
      now apply trimStart_commas, trimEnd_commas.
    + intros c rest. apply trimStart_head, ascii_trim_start.
    + intros init c. apply trimEnd_last, ascii_trim_end.
Qed.

Lemma join_then_split (names : list string) :
  names <> [] ->
  Forall (fun n => trim n = n /\ ~ In ","%char (list_ascii_of_string n)) names ->
  map trim (split "," (String.concat ", " names)) = names /\
  map trim (split "," (String " " (String.concat ", " names))) = names.
Proof.
  induction names as [|n rest IH]; [congruence|]. intros _ H.
  inversion H as [|? ? [Ht Hc] Hrest]; subst.
  assert (Hs : ~ In ","%char (list_ascii_of_string (String " " n))).
  { simpl. intros [E | E]; [discriminate | auto]. }
  destruct rest as [|m rest].
  - cbn [String.concat]. rewrite (split_clean "," n Hc), (split_clean _ _ Hs).
    cbn [map]. now rewrite (trim_leading_space rt Hrt), Ht.
  - destruct IH as [_ IH]; [discriminate | exact Hrest |].
    change (String.concat ", " (n :: m :: rest))
      with (n ++ String "," (String " " (String.concat ", " (m :: rest))))%string.
    split.
    + rewrite (split_at_sep "," n _ Hc). cbn [map].
      f_equal; [exact Ht | exact IH].
    + match goal with
      | |- context [String " " (n ++ ?x)%string] =>
          change (String " " (n ++ x)%string) with (String " " n ++ x)%string
      end.
      rewrite (split_at_sep "," _ _ Hs). cbn [map].
      f_equal; [now rewrite (trim_leading_space rt Hrt) | exact IH].
Qed.

(** X10. Joining and parsing are inverse on the names of the cart: when the
    cart is not empty and no product name contains a comma or has white
    space at an end, parsing the item list sent to the service gives back
    the names of the cart's lines, in order. *)
Theorem suggestions_round_trip (c : Cart) :
  c <> [] ->
  Forall (fun item : CartItem =>
            trim (name item) = name item /\
            ~ In ","%char (list_ascii_of_string (name item))) c ->
  suggestions (Some (cartItems c)) = map (fun item : CartItem => name item) c.
Proof.
  intros Hne H. unfold suggestions, cartItems.
  apply join_then_split.
  - destruct c; [congruence | discriminate].
  - apply Forall_map. exact H.
Qed.

End SuggestionFacts.

Lemma suggestions_shape_witness :
  Forall (fun entry =>
            ~ In ","%char (list_ascii_of_string entry) /\
            (forall c rest, entry = String c rest -> is_space c = false) /\
            (forall init c,
                entry = (init ++ String c "")%string -> is_space c = false))
         (suggestions (rt := ascii_runtime) (Some " Curd, Butter ,Brown eggs ")).
Proof.
  apply (suggestions_shape ascii_runtime_spec " Curd, Butter ,Brown eggs ").
  reflexivity.
Defined.

Example suggestions_example :
  suggestions (rt := ascii_runtime) (Some " Curd, Butter ,Brown eggs ")
    = ["Curd"%string; "Butter"%string; "Brown eggs"%string].
Proof. reflexivity. Qed.

Lemma suggestions_round_trip_witness :
  suggestions (rt := ascii_runtime)
    (Some (cartItems (run [AddLine milk; AddLine bread])))
    = ["Amul Gold Milk"%string; "Harvest Gold Bread"%string].
Proof.
  apply (suggestions_round_trip ascii_runtime_spec (run [AddLine milk; AddLine bread])).
  - discriminate.
  - repeat constructor; try reflexivity; vm_compute; intuition discriminate.
Defined.

(** * Further properties of the order service *)

Section ServiceFacts.

Import Server.

(** The tables after [POST /api/orders], whatever the answer. *)
Lemma post_orders_tables (req : OrdersBody) (now : Z) (db : Database) :
  let orderId := next_rowid (seq_orders db) (map orders_id (orders db)) in
  let db' := fst (handle (post_orders req now) db) in
  users db' = users db /\
  orders db'
    = orders db ++
      [mkOrderRow orderId (userId_or_1 (userId req)) (total req) "pending" now] /\
  order_items db'
    = order_items db ++
      item_rows orderId
        (next_rowid (seq_order_items db) (map order_items_id (order_items db)))
        (accepted (items req)) /\
  snd (handle (post_orders req now) db)
    = if all_present (items req)
      then mkResponse 200 (OrderCreated true orderId)
      else mkResponse 500
             (ErrorPage (TypeError "Cannot read properties of null (reading 'id')")).
Proof.
  cbv zeta. unfold handle, post_orders, bind, insert_order.
  cbv beta iota zeta.
  match goal with
  | |- context [forEach (insert_line ?o) (items req) ?d] =>
      pose proof (forEach_insert_line o (items req) d) as L;
      destruct (forEach (insert_line o) (items req) d) as [db1 out]
  end.
  cbv zeta in L. cbn [fst snd users orders order_items seq_order_items] in L.
  destruct L as [U [O [I R]]]. subst out.
  destruct (all_present (items req)); cbn [fst snd]; auto.
Qed.

(** The database after [POST /api/register]: untouched, or one user row
    more, with a fresh key and an email no row had. *)
Lemma post_register_tables (req : RegisterBody) (db : Database) :
  let db' := fst (handle (post_register req) db) in
  orders db' = orders db /\
  order_items db' = order_items db /\
  (users db' = users db \/
   (~ In (email req) (map users_email (users db)) /\
    users db'
      = users db ++
        [mkUserRow (next_rowid (seq_users db) (map users_id (users db)))
                   (email req) (password req) (name req)])).
Proof.
  cbv zeta. unfold handle, post_register, try_catch, bind, insert_user, select_user.
  destruct (existsb (fun u => (users_email u =? email req)%string) (users db)) eqn:E.
  - cbn. auto.
  - cbn. repeat split. right. split; [|reflexivity].
    rewrite in_map_iff. intros [u [Hu Hin]].
    assert (existsb (fun u => (users_email u =? email req)%string) (users db) = true);
      [|congruence].
    apply existsb_exists. exists u. split; [exact Hin|]. now apply String.eqb_eq.
Qed.

Lemma post_login_db (req : LoginBody) (db : Database) :
  fst (handle (post_login req) db) = db.
Proof.
  unfold handle, post_login, bind, select_credentials. cbv beta iota zeta.
  now destruct (find _ (users db)).
Qed.

Lemma NoDup_snoc (A : Type) (l : list A) (x : A) :
  NoDup l -> ~ In x l -> NoDup (l ++ [x]).
Proof.
  intros ND H. apply NoDup_app; [exact ND | repeat constructor; simpl; tauto |].
  intros a Ha [E | []]. subst a. contradiction.
Qed.

Lemma next_rowid_not_in (seq : Z) (rowids : list Z) :
  ~ In (next_rowid seq rowids) rowids.
Proof.
  intros H. apply (next_rowid_fresh seq) in H. lia.
Qed.

Lemma item_rows_ids (orderId rowid : Z) (xs : list CartItem) :
  forall k, In k (map order_items_id (item_rows orderId rowid xs)) -> rowid <= k.
Proof.
  revert rowid. induction xs as [|i xs IH]; simpl; intros rowid k H; [contradiction|].
  destruct H as [<- | H]; [lia|]. apply IH in H. lia.
Qed.

Lemma item_rows_nodup (orderId rowid : Z) (xs : list CartItem) :
  NoDup (map order_items_id (item_rows orderId rowid xs)).
Proof.
  revert rowid. induction xs as [|i xs IH]; simpl; intros rowid; constructor.
  - intros H. apply item_rows_ids in H. lia.
  - apply IH.
Qed.

Lemma item_rows_order (orderId rowid : Z) (xs : list CartItem) :
  Forall (fun r => order_items_order_id r = orderId) (item_rows orderId rowid xs).
Proof.
  revert rowid. induction xs as [|i xs IH]; simpl; intros rowid; constructor; auto.
Qed.

Lemma serve_consistent (db : Database) (r : Request) :
  db_consistent db -> db_consistent (fst (serve db r)).
Proof.
  intros [Uid [Uem [Oid [Iid Ref]]]]. destruct r as [req | req | req now]; simpl.
  - pose proof (post_register_tables req db) as [O [I U]]. cbv zeta in *.
    unfold db_consistent. rewrite O, I.
    destruct U as [U | [Hnew U]]; rewrite U.
    + repeat split; assumption.
    + rewrite !map_app. cbn [map users_id users_email]. repeat split; try assumption.
      * apply NoDup_snoc; [exact Uid | apply next_rowid_not_in].
      * apply NoDup_snoc; assumption.
  - rewrite post_login_db. repeat split; assumption.
  - pose proof (post_orders_tables req now db) as [U [O [I _]]]. cbv zeta in *.
    unfold db_consistent. rewrite U, O, I, !map_app. cbn [map orders_id].
    repeat split; try assumption.
    + apply NoDup_snoc; [exact Oid | apply next_rowid_not_in].
    + apply NoDup_app; [exact Iid | apply item_rows_nodup |].
      intros k Hold Hnew. apply item_rows_ids in Hnew.
      apply (next_rowid_fresh (seq_order_items db)) in Hold. lia.
    + apply Forall_app. split.
      * eapply Forall_impl; [|exact Ref]. intros i Hi. cbv beta in *.
        apply in_or_app. now left.
      * eapply Forall_impl; [|apply item_rows_order]. intros i Hi. cbv beta in *.
        rewrite Hi. apply in_or_app. right. now left.
Qed.

(** X11. Starting from the empty database, after any sequence of register,
    login and create-order requests (failed ones included) no two users
    share a key or an email, no two orders and no two item rows share a key,
    and every stored item row belongs to a stored order. *)
Theorem service_consistent (requests : list Request) :
  db_consistent (serve_all requests empty_db).
Proof.
  unfold serve_all.
  assert (G : forall db, db_consistent db ->
              db_consistent (fold_left (fun d r => fst (serve d r)) requests db)).
  { induction requests as [|r rest IH]; simpl; intros db H; [exact H|].
    apply IH. now apply serve_consistent. }
  apply G. repeat split; constructor.
Qed.

Lemma serve_all_consistent (requests : list Request) (db : Database) :
  db_consistent db -> db_consistent (serve_all requests db).
Proof.
  unfold serve_all. revert db.
  induction requests as [|r rest IH]; simpl; intros db H; [exact H|].
  apply IH. now apply serve_consistent.
Qed.

(** The [users] table only grows. *)
Lemma serve_users_grow (db : Database) (r : Request) :
  exists more, users (fst (serve db r)) = users db ++ more.
Proof.
  destruct r as [req | req | req now]; simpl.
  - pose proof (post_register_tables req db) as [_ [_ [U | [_ U]]]];
      cbv zeta in U; rewrite U.
    + exists []. now rewrite app_nil_r.
    + eexists. reflexivity.
  - rewrite post_login_db. exists []. now rewrite app_nil_r.
  - pose proof (post_orders_tables req now db) as [U _]. cbv zeta in U.
    rewrite U. exists []. now rewrite app_nil_r.
Qed.

Lemma serve_all_users_grow (requests : list Request) (db : Database) :
  exists more, users (serve_all requests db) = users db ++ more.
Proof.
  unfold serve_all. revert db.
  induction requests as [|r rest IH]; simpl; intros db.
  - exists []. now rewrite app_nil_r.
  - destruct (serve_users_grow db r) as [m1 E1].
    destruct (IH (fst (serve db r))) as [m2 E2].
    exists (m1 ++ m2). now rewrite E2, E1, app_assoc.
Qed.

Lemma register_fresh (db : Database) (e pw n : string) :
  (forall u, In u (users db) -> users_email u <> e) ->
  users (fst (serve db (Register (mkRegisterBody e pw n))))
    = users db ++
      [mkUserRow (next_rowid (seq_users db) (map users_id (users db))) e pw n].
Proof.
  intros Hnew. simpl.
  unfold handle, post_register, try_catch, bind, insert_user, select_user.
  cbn [email password name]. rewrite (email_absent e _ Hnew).
  cbv beta iota zeta.
  match goal with |- context [find ?f ?l] => destruct (find f l) end;
    reflexivity.
Qed.

Lemma find_app_gen (A : Type) (f : A -> bool) (a b : list A) :
  find f (a ++ b) = match find f a with
                    | Some x => Some x
                    | None => find f b
                    end.
Proof.
  induction a as [|x a IH]; simpl; [reflexivity|]. now destruct (f x).
Qed.

Lemma find_none_gen (A : Type) (f : A -> bool) (l : list A) :
  (forall x, In x l -> f x = false) -> find f l = None.
Proof.
  induction l as [|x l IH]; simpl; intros H; [reflexivity|].
  rewrite (H x) by auto. apply IH. auto.
Qed.

(** X12. Once an email is registered, signing in with it keeps working:
    after any later requests, [POST /api/login] with the registered email
    and password answers 200 with the user the registration created, and
    with the registered email and any other password it answers 401. *)
Theorem login_after_register
    (db : Database) (e pw n wrong : string) (later : list Request) :
  db_consistent db ->
  (forall u, In u (users db) -> users_email u <> e) ->
  wrong <> pw ->
  let rowid := next_rowid (seq_users db) (map users_id (users db)) in
  let db1 := fst (serve db (Register (mkRegisterBody e pw n))) in
  let db2 := serve_all later db1 in
  snd (serve db2 (Login (mkLoginBody e pw)))
    = mkResponse 200 (UserCreated true (Some (mkUserData rowid e n))) /\
  snd (serve db2 (Login (mkLoginBody e wrong)))
    = mkResponse 401 (Failure false "Invalid email or password").
Proof.
  intros Hc Hnew Hwrong. cbv zeta.
  set (rowid := next_rowid (seq_users db) (map users_id (users db))).
  set (db1 := fst (serve db (Register (mkRegisterBody e pw n)))).
  pose proof (register_fresh db e pw n Hnew) as U1. fold rowid db1 in U1.
  destruct (serve_all_users_grow later db1) as [more U2].
  assert (C2 : db_consistent (serve_all later db1)).
  { apply serve_all_consistent. now apply serve_consistent. }
  destruct C2 as [_ [Em _]]. rewrite U2, U1 in Em.
  rewrite !map_app in Em. cbn [map users_email] in Em.
  assert (Hmore : forall u, In u more -> users_email u <> e).
  { intros u Hu He. rewrite <- app_assoc in Em. apply NoDup_remove_2 in Em.
    apply Em. apply in_or_app. right. simpl.
    change (In e (map users_email more)). rewrite <- He. now apply in_map. }
  assert (Hold : forall pass u, In u (users db) ->
            (users_email u =? e)%string && (users_password u =? pass)%string = false).
  { intros pass u Hu. apply andb_false_iff. left.
    apply String.eqb_neq. now apply Hnew. }
  split; simpl; unfold handle, post_login, bind, select_credentials;
    cbn [login_email login_password]; cbv beta iota zeta;
    rewrite U2, U1, <- app_assoc, find_app_gen, (find_none_gen _ _ _ (Hold _)).
  - cbn [app find users_email users_password].
    now rewrite !String.eqb_refl.
  - cbn [app find users_email users_password].
    rewrite String.eqb_refl. cbn [andb].
    replace (pw =? wrong)%string with false
      by (symmetry; apply String.eqb_neq; congruence).
    rewrite find_none_gen; [reflexivity|].
    intros u Hu. apply andb_false_iff. left. apply String.eqb_neq. now apply Hmore.
Qed.

Lemma login_after_register_witness :
  snd (serve
         (serve_all [CreateOrder order_of_two_lines 5;
                     Register (mkRegisterBody "ravi@example.com" "pw" "Ravi")]
            (fst (serve empty_db
                    (Register (mkRegisterBody "asha@example.com" "s3cret" "Asha")))))
         (Login (mkLoginBody "asha@example.com" "s3cret")))
    = mkResponse 200 (UserCreated true (Some (mkUserData 1 "asha@example.com" "Asha"))).
Proof.
  apply (login_after_register empty_db "asha@example.com" "s3cret" "Asha" "guess"
           [CreateOrder order_of_two_lines 5;
            Register (mkRegisterBody "ravi@example.com" "pw" "Ravi")]).
  - repeat split; constructor.
  - simpl. intros u [].
  - discriminate.
Defined.

(** *** The order history *)

Lemma insert_desc_perm (row : OrderRow) (sorted : list OrderRow) :
  Permutation (insert_desc row sorted) (row :: sorted).
Proof.
  induction sorted as [|r rest IH]; simpl; [reflexivity|].
  destruct (orders_created_at r <=? orders_created_at row); [reflexivity|].
  rewrite IH. apply perm_swap.
Qed.

Lemma order_by_perm (rows : list OrderRow) :
  Permutation (order_by_created_at_desc rows) rows.
Proof.
  induction rows as [|r rows IH]; simpl; [constructor|].
  rewrite insert_desc_perm. now constructor.
Qed.

Lemma insert_desc_sorted (row : OrderRow) (sorted : list OrderRow) :
  StronglySorted newer_first sorted ->
  StronglySorted newer_first (insert_desc row sorted).
Proof.
  induction 1 as [|r rest Hs IH Hr]; simpl.
  - repeat constructor.
  - destruct (orders_created_at r <=? orders_created_at row) eqn:E.
    + apply Z.leb_le in E. constructor; [now constructor|].
      constructor; [exact E|].
      eapply Forall_impl; [|exact Hr]. unfold newer_first. intros; lia.
    + apply Z.leb_gt in E. constructor; [exact IH|].
      apply Forall_forall. intros o Ho.
      apply (Permutation_in _ (insert_desc_perm row rest)) in Ho.
      destruct Ho as [<- | Ho]; [unfold newer_first; lia|].
      rewrite Forall_forall in Hr. now apply Hr.
Qed.

Lemma order_by_sorted (rows : list OrderRow) :
  StronglySorted newer_first (order_by_created_at_desc rows).
Proof.
  induction rows as [|r rows IH]; simpl; [constructor|].
  now apply insert_desc_sorted.
Qed.

Lemma listing_in (userId : Z) (db : Database) (o : OrderRow) :
  In o (order_by_created_at_desc
          (filter (fun o => orders_user_id o =? userId) (orders db)))
  <-> In o (orders db) /\ orders_user_id o = userId.
Proof.
  rewrite <- Z.eqb_eq, <- (filter_In (fun o => orders_user_id o =? userId)).
  split; apply Permutation_in;
    [apply order_by_perm | symmetry; apply order_by_perm].
Qed.

(** X13. [GET /api/orders/user/:userId] lists the orders of that user and
    no others, each as often as it is stored, newest first. *)
Theorem order_history (userId : Z) (db : Database) :
  exists listing,
    get_orders_user userId db = (db, Returned listing) /\
    (forall o, In o listing <-> In o (orders db) /\ orders_user_id o = userId) /\
    Permutation listing (filter (fun o => orders_user_id o =? userId) (orders db)) /\
    StronglySorted newer_first listing.
Proof.
  eexists. split; [reflexivity|].
  split; [intros o; apply listing_in|].
  split; [apply order_by_perm | apply order_by_sorted].
Qed.

(** X14. Every [POST /api/orders], answered with success or not, adds an
    order that the history of its user shows, with status "pending", the
    total of the request and the time of the request. The user is the
    [userId] of the request, and user 1 when the request has none (or 0). *)
Theorem order_shows_in_history (req : OrdersBody) (now : Z) (db : Database) :
  let owner := userId_or_1 (userId req) in
  let orderId := next_rowid (seq_orders db) (map orders_id (orders db)) in
  let db' := fst (serve db (CreateOrder req now)) in
  exists listing,
    get_orders_user owner db' = (db', Returned listing) /\
    In (mkOrderRow orderId owner (total req) "pending" now) listing /\
    (forall o, In o (orders db) -> orders_id o <> orderId) /\
    (userId req = None -> owner = 1).
Proof.
  cbv zeta. eexists. split; [reflexivity|]. repeat split.
  - apply listing_in. split; [|reflexivity].
    pose proof (post_orders_tables req now db) as [_ [O _]]. cbv zeta in O.
    simpl. rewrite O. apply in_or_app. right. now left.
  - intros o Ho E. apply (next_rowid_not_in (seq_orders db) (map orders_id (orders db))).
    rewrite <- E. now apply in_map.
  - intros H. now rewrite H.
Qed.

Lemma order_shows_in_history_witness :
  exists listing,
    get_orders_user 1
      (fst (serve empty_db (CreateOrder (mkOrdersBody None [] 2) 9)))
      = (fst (serve empty_db (CreateOrder (mkOrdersBody None [] 2) 9)),
         Returned listing) /\
    In (mkOrderRow 1 1 2 "pending" 9) listing /\
    (forall o, In o (orders empty_db) -> orders_id o <> 1) /\
    (userId (mkOrdersBody None [] 2) = None -> 1 = 1).
Proof.
  exact (order_shows_in_history (mkOrdersBody None [] 2) 9 empty_db).
Defined.

End ServiceFacts.

(** * The client against the service *)

Lemma item_rows_total (orderId rowid : Z) (xs : list CartItem) :
  fold_right Z.add 0
    (map (fun r => Server.order_items_price r * Server.order_items_quantity r)
         (Server.item_rows orderId rowid xs))
    = sum_lines (fun item => price item * quantity item) xs.
Proof.
  revert rowid. induction xs as [|i xs IH]; simpl; intros rowid; [reflexivity|].
  now rewrite IH.
Qed.

(** X15. Checkout against the order service of [src/server.ts]: for a
    signed-in user with a non-empty cart the request is always accepted. The
    client ends on the success page with an empty cart and the button
    released; the service has stored one order under the user's id with
    total [cartTotal + 2] and status "pending", and one item row per cart
    line carrying the line's product id, quantity and unit price, so the
    stored lines add up to the stored total less the fee of 2. *)
Theorem checkout_against_service
    (u : UserData) (db : Server.Database) (now : Z) (st : AppState) :
  cart st <> [] ->
  let request := mkOrderRequest (user_id u) (cart st) (cartTotal (cart st) + 2) in
  let db' := fst (order_service db now request) in
  let orderId :=
    Server.next_rowid (Server.seq_orders db)
      (map Server.orders_id (Server.orders db)) in
  let rows :=
    Server.item_rows orderId
      (Server.next_rowid (Server.seq_order_items db)
         (map Server.order_items_id (Server.order_items db)))
      (cart st) in
  placeOrder (Some u) (fetch_order_service db now) st
    = (mkAppState [] "/success" false, Some request) /\
  Server.orders db'
    = Server.orders db ++
      [Server.mkOrderRow orderId (Server.userId_or_1 (Some (user_id u)))
         (cartTotal (cart st) + 2) "pending" now] /\
  Server.order_items db' = Server.order_items db ++ rows /\
  fold_right Z.add 0
    (map (fun r => Server.order_items_price r * Server.order_items_quantity r) rows)
    = cartTotal (cart st).
Proof.
  intros Hne. cbv zeta.
  pose proof (post_orders_tables
                (Server.body_of_request (user_id u) (cart st)
                   (cartTotal (cart st) + 2)) now db) as [_ [O [I R]]].
  cbv zeta in O, I, R. unfold Server.body_of_request in O, I, R.
  cbn [Server.userId Server.items Server.total] in O, I, R.
  rewrite all_present_all in R. rewrite accepted_all in I.
  repeat split.
  - unfold placeOrder. rewrite (CheckoutPage_form _ Hne).
    unfold handlePlaceOrder, fetch_order_service, order_service.
    cbv zeta. cbn [userId items total]. unfold Server.body_of_request.
    rewrite R. reflexivity.
  - exact O.
  - exact I.
  - now rewrite item_rows_total, cartTotal_sum.
Qed.

Lemma checkout_against_service_witness :
  placeOrder (Some shopper) (fetch_order_service Server.empty_db 0)
    (at_checkout (run [AddLine milk; AddLine bread; AddLine milk]))
  = (mkAppState [] "/success" false,
     Some (mkOrderRequest 7 (run [AddLine milk; AddLine bread; AddLine milk]) 113)).
Proof.
  apply (checkout_against_service shopper Server.empty_db 0
           (at_checkout (run [AddLine milk; AddLine bread; AddLine milk]))).
  simpl. discriminate.
Defined.

(** ** Signing up and signing in *)

Lemma register_fresh_response (db : Server.Database) (e pw n : string) :
  (forall u, In u (Server.users db) -> Server.users_email u <> e) ->
  snd (Server.serve db (Server.Register (Server.mkRegisterBody e pw n)))
    = Server.mkResponse 200
        (Server.UserCreated true
           (Some (mkUserData
                    (Server.next_rowid (Server.seq_users db)
                       (map Server.users_id (Server.users db)))
                    e n))).
Proof.
  intros Hnew. simpl.
  unfold Server.handle, Server.post_register, Server.try_catch, Server.bind,
    Server.insert_user, Server.select_user.
  cbn [Server.email Server.password Server.name].
  rewrite (email_absent e _ Hnew). cbv beta iota zeta. cbn [Server.users].
  rewrite (find_new_row _ (Server.mkUserRow _ e pw n)); [reflexivity | | reflexivity].
  intros u Hu. apply next_rowid_fresh. now apply (in_map Server.users_id).
Qed.

Lemma register_taken_response (db : Server.Database) (e pw n : string) :
  In e (map Server.users_email (Server.users db)) ->
  Server.serve db (Server.Register (Server.mkRegisterBody e pw n))
    = (db, Server.mkResponse 400 (Server.Failure false "Email already exists")).
Proof.
  intros Hin. simpl.
  unfold Server.handle, Server.post_register, Server.try_catch, Server.bind,
    Server.insert_user.
  cbn [Server.email Server.password Server.name].
  replace (existsb (fun u => (Server.users_email u =? e)%string) (Server.users db))
    with true; [reflexivity|].
  symmetry. apply existsb_exists. apply in_map_iff in Hin.
  destruct Hin as [u [E Hu]]. exists u. split; [exact Hu|]. now apply String.eqb_eq.
Qed.

(** X16. The sign-up form against the service. With an email no user has,
    submitting signs the new user in: the session holds the user the
    service created, the form shows no error, the location is the home
    page, and a page reload restores the same session. With an email that
    is taken, the form shows "Email already exists" and the session is the
    one before. In both cases the form stops loading. *)
Theorem sign_up_against_service
    (db : Server.Database) (f : Auth.Form) (s : Auth.Session) :
  Auth.isLogin f = false ->
  let outcome := Auth.handleSubmit (Auth.fetch_service db) f s in
  let created :=
    mkUserData
      (Server.next_rowid (Server.seq_users db) (map Server.users_id (Server.users db)))
      (Auth.email f) (Auth.name f) in
  let settled err :=
    Auth.mkForm false (Auth.email f) (Auth.password f) (Auth.name f) err false in
  (~ In (Auth.email f) (map Server.users_email (Server.users db)) ->
   outcome = (settled "", Auth.mkSession (Some created) (Some (Some created)) "/") /\
   Auth.reload (snd outcome) = Some (snd outcome)) /\
  (In (Auth.email f) (map Server.users_email (Server.users db)) ->
   outcome = (settled "Email already exists", s)).
Proof.
  intros Hreg. cbv zeta. unfold Auth.handleSubmit, Auth.fetch_service.
  rewrite Hreg. cbv zeta. cbn [Auth.request_of Auth.body_email Auth.body_password
                                 Auth.body_name].
  split.
  - intros Hnew. rewrite register_fresh_response.
    + split; reflexivity.
    + intros u Hu E. apply Hnew. rewrite <- E. now apply in_map.
  - intros Htaken. rewrite (register_taken_response db _ _ _ Htaken).
    reflexivity.
Qed.

Lemma sign_up_against_service_witness :
  Auth.handleSubmit (Auth.fetch_service Server.empty_db)
    (Auth.mkForm false "asha@example.com" "s3cret" "Asha" "" false)
    (Auth.mkSession None None "/auth")
  = (Auth.mkForm false "asha@example.com" "s3cret" "Asha" "" false,
     Auth.mkSession (Some (mkUserData 1 "asha@example.com" "Asha"))
       (Some (Some (mkUserData 1 "asha@example.com" "Asha"))) "/").
Proof.
  apply (sign_up_against_service Server.empty_db
           (Auth.mkForm false "asha@example.com" "s3cret" "Asha" "" false)
           (Auth.mkSession None None "/auth")).
  - reflexivity.
  - simpl. tauto.
Defined.

Lemma find_credentials (rows : list Server.UserRow) (row : Server.UserRow) :
  NoDup (map Server.users_email rows) ->
  In row rows ->
  find (fun u => (Server.users_email u =? Server.users_email row)%string
                 && (Server.users_password u =? Server.users_password row)%string)
       rows
    = Some row.
Proof.
  induction rows as [|r rows IH]; simpl; intros ND Hin; [contradiction|].
  inversion ND as [|? ? Hnot ND']; subst.
  destruct Hin as [-> | Hin].
  - now rewrite !String.eqb_refl.
  - replace (Server.users_email r =? Server.users_email row)%string with false.
    + now apply IH.
    + symmetry. apply String.eqb_neq. intros E. apply Hnot. rewrite E.
      now apply in_map.
Qed.

(** X17. The sign-in form against the service, on a database whose emails
    are distinct. With the email and password of a stored user, submitting
    signs that user in (id, email and name of the stored row) and goes to
    the home page. When no stored user has that email with that password,
    the form shows "Invalid email or password" and the session is the one
    before. *)
Theorem sign_in_against_service
    (db : Server.Database) (f : Auth.Form) (s : Auth.Session) :
  Auth.isLogin f = true ->
  NoDup (map Server.users_email (Server.users db)) ->
  let outcome := Auth.handleSubmit (Auth.fetch_service db) f s in
  let settled err :=
    Auth.mkForm true (Auth.email f) (Auth.password f) (Auth.name f) err false in
  (forall row,
      In row (Server.users db) ->
      Server.users_email row = Auth.email f ->
      Server.users_password row = Auth.password f ->
      let signed := mkUserData (Server.users_id row) (Server.users_email row)
                               (Server.users_name row) in
      outcome = (settled "", Auth.mkSession (Some signed) (Some (Some signed)) "/")) /\
  ((forall row, In row (Server.users db) ->
                Server.users_email row = Auth.email f ->
                Server.users_password row <> Auth.password f) ->
   outcome = (settled "Invalid email or password", s)).
Proof.
  intros Hlog ND. cbv zeta. unfold Auth.handleSubmit, Auth.fetch_service.
  rewrite Hlog. cbv zeta. cbn [Auth.request_of Auth.body_email Auth.body_password].
  simpl Server.serve.
  unfold Server.handle, Server.post_login, Server.bind, Server.select_credentials.
  cbn [Server.login_email Server.login_password]. cbv beta iota zeta.
  split.
  - intros row Hin He Hp. rewrite <- He, <- Hp.
    rewrite (find_credentials _ _ ND Hin). reflexivity.
  - intros Hno. rewrite find_none_gen; [reflexivity|].
    intros u Hu. apply andb_false_iff.
    destruct (String.eqb_spec (Server.users_email u) (Auth.email f)) as [E|]; [|now left].
    right. apply String.eqb_neq. now apply Hno.
Qed.

Lemma sign_in_against_service_witness :
  Auth.handleSubmit
    (Auth.fetch_service
       (fst (Server.serve Server.empty_db
               (Server.Register
                  (Server.mkRegisterBody "asha@example.com" "s3cret" "Asha")))))
    (Auth.mkForm true "asha@example.com" "guess" "" "" false)
    (Auth.mkSession None None "/auth")
  = (Auth.mkForm true "asha@example.com" "guess" "" "Invalid email or password" false,
     Auth.mkSession None None "/auth").
Proof.
  apply (sign_in_against_service
           (fst (Server.serve Server.empty_db
                   (Server.Register
                      (Server.mkRegisterBody "asha@example.com" "s3cret" "Asha"))))
           (Auth.mkForm true "asha@example.com" "guess" "" "" false)
           (Auth.mkSession None None "/auth")).
  - reflexivity.
  - simpl. repeat constructor. simpl. tauto.
  - simpl. intros row [<- | []] _. simpl. discriminate.
Defined.

(** ** Removing, then adding again *)

(** X18. Remove-then-add is not always the inverse of add-then-remove. On
    a cart that keeps the invariant and has a line for [p.id]: when the line
    holds more than one unit, [removeFromCart p.id] followed by
    [addToCart p] gives the cart back; when it holds exactly one, the line
    is dropped and a new line is appended at the end, built from the
    product as passed now, with quantity 1. *)
Theorem remove_then_add (p : Product) (c : Cart) (line : CartItem) :
  CartInv c ->
  find (has_id (id p)) c = Some line ->
  (1 < quantity line -> addToCart p (removeFromCart (id p) c) = c) /\
  (quantity line = 1 ->
   addToCart p (removeFromCart (id p) c)
     = filter (fun item => negb (has_id (id p) item)) c ++ [mkCartItem p 1]).
Proof.
  intros [ND Q] F. split; intros Hq; unfold removeFromCart; rewrite F; cbv zeta.
  - replace (1 <? quantity line) with true by (symmetry; apply Z.ltb_lt; lia).
    rewrite addToCart_present.
    + rewrite map_map. rewrite <- (map_id c) at 2. apply map_ext.
      intros item. apply (on_line_inverse (id p) (-1)).
    + rewrite ids_on_line. apply find_present in F. destruct F as [Hin <-].
      now apply in_ids.
  - replace (1 <? quantity line) with false by (symmetry; apply Z.ltb_ge; lia).
    unfold addToCart. now rewrite find_filter_same.
Qed.

Lemma remove_then_add_witness :
  addToCart milk_repriced
    (removeFromCart (id milk_repriced) [mkCartItem milk 1; mkCartItem bread 2])
  = filter (fun item => negb (has_id (id milk_repriced) item))
      [mkCartItem milk 1; mkCartItem bread 2]
    ++ [mkCartItem milk_repriced 1].
Proof.
  apply (remove_then_add milk_repriced [mkCartItem milk 1; mkCartItem bread 2]
           (mkCartItem milk 1)).
  - split; repeat constructor; simpl; intuition (try discriminate; try lia).
  - reflexivity.
  - reflexivity.
Defined.

(** ** The stored tables only grow *)

Section AppendOnly.

Import Server.

Lemma serve_appends (db : Database) (r : Request) :
  exists u o i,
    users (fst (serve db r)) = users db ++ u /\
    orders (fst (serve db r)) = orders db ++ o /\
    order_items (fst (serve db r)) = order_items db ++ i.
Proof.
  destruct r as [req | req | req now]; simpl.
  - pose proof (post_register_tables req db) as [O [I U]]. cbv zeta in *.
    rewrite O, I. destruct U as [U | [_ U]]; rewrite U.
    + exists [], [], []. now rewrite !app_nil_r.
    + eexists. exists [], []. split; [reflexivity|].
      split; now rewrite app_nil_r.
  - rewrite post_login_db. exists [], [], []. now rewrite !app_nil_r.
  - pose proof (post_orders_tables req now db) as [U [O [I _]]]. cbv zeta in *.
    rewrite U, O, I. exists []. do 2 eexists.
    split; [now rewrite app_nil_r|]. split; reflexivity.
Qed.

(** X19. The service never deletes or rewrites a stored row: after any
    sequence of requests each of the three tables is the table before with
    rows appended, so an order or a user that was stored stays stored as it
    was. *)
Theorem service_append_only (requests : list Request) (db : Database) :
  exists u o i,
    users (serve_all requests db) = users db ++ u /\
    orders (serve_all requests db) = orders db ++ o /\
    order_items (serve_all requests db) = order_items db ++ i.
Proof.
  unfold serve_all. revert db.
  induction requests as [|r rest IH]; simpl; intros db.
  - exists [], [], []. now rewrite !app_nil_r.
  - destruct (serve_appends db r) as [u1 [o1 [i1 [U1 [O1 I1]]]]].
    destruct (IH (fst (serve db r))) as [u2 [o2 [i2 [U2 [O2 I2]]]]].
    exists (u1 ++ u2), (o1 ++ o2), (i1 ++ i2).
    rewrite U2, O2, I2, U1, O1, I1, !app_assoc. auto.
Qed.

End AppendOnly.

(** ** A placed order in the order history *)

Lemma order_by_newest (rows : list Server.OrderRow) (row : Server.OrderRow) :
  (forall o, In o rows ->
             Server.orders_created_at o < Server.orders_created_at row) ->
  Server.order_by_created_at_desc (rows ++ [row])
    = row :: Server.order_by_created_at_desc rows.
Proof.
  induction rows as [|r rows IH]; intros H; [reflexivity|].
  cbn [app]. unfold Server.order_by_created_at_desc in *. cbn [fold_right].
  rewrite IH by (intros o Ho; apply H; now right).
  cbn [Server.insert_desc].
  specialize (H r (or_introl eq_refl)).
  replace (Server.orders_created_at row <=? Server.orders_created_at r)
    with false by (symmetry; apply Z.leb_gt; lia).
  reflexivity.
Qed.

(** X20. After a checkout against the service by a user whose id is not 0,
    placed later than every stored order, the order history of that user is
    the new order (total [cartTotal + 2], status "pending") followed by the
    history as it was before. *)
Theorem checkout_then_history
    (u : UserData) (db : Server.Database) (now : Z) (st : AppState) :
  cart st <> [] ->
  user_id u <> 0 ->
  (forall o, In o (Server.orders db) -> Server.orders_created_at o < now) ->
  let request := mkOrderRequest (user_id u) (cart st) (cartTotal (cart st) + 2) in
  let db' := fst (order_service db now request) in
  let orderId :=
    Server.next_rowid (Server.seq_orders db)
      (map Server.orders_id (Server.orders db)) in
  exists before,
    Server.get_orders_user (user_id u) db = (db, Server.Returned before) /\
    snd (placeOrder (Some u) (fetch_order_service db now) st) = Some request /\
    Server.get_orders_user (user_id u) db'
      = (db',
         Server.Returned
           (Server.mkOrderRow orderId (user_id u) (cartTotal (cart st) + 2)
              "pending" now
            :: before)).
Proof.
  intros Hne Hid Hnew. cbv zeta. eexists. split; [reflexivity|]. split.
  - unfold placeOrder. now rewrite (CheckoutPage_form _ Hne).
  - pose proof (post_orders_tables
                  (Server.body_of_request (user_id u) (cart st)
                     (cartTotal (cart st) + 2)) now db) as [_ [O _]].
    cbv zeta in O. unfold Server.body_of_request in O.
    cbn [Server.userId Server.total Server.userId_or_1] in O.
    replace (user_id u =? 0) with false in O
      by (symmetry; now apply Z.eqb_neq).
    unfold Server.get_orders_user, order_service, Server.body_of_request.
    cbn [userId items total]. rewrite O, filter_app. cbn [filter Server.orders_user_id].
    rewrite Z.eqb_refl, order_by_newest; [reflexivity|].
    intros o Ho. apply filter_In in Ho. cbn [Server.orders_created_at].
    apply Hnew. tauto.
Qed.

Lemma checkout_then_history_witness :
  Server.get_orders_user 7
    (fst (order_service stored_orders 5 (mkOrderRequest 7 [mkCartItem milk 2] 68)))
  = (fst (order_service stored_orders 5 (mkOrderRequest 7 [mkCartItem milk 2] 68)),
     Server.Returned
       [Server.mkOrderRow 3 7 68 "pending" 5;
        Server.mkOrderRow 1 7 22 "pending" 1]).
Proof.
  destruct (checkout_then_history shopper stored_orders 5
              (at_checkout [mkCartItem milk 2]))
    as [before [H1 [_ H3]]].
  - simpl. discriminate.
  - simpl. lia.
  - simpl. intros o [<- | [<- | []]]; simpl; lia.
  - vm_compute in H1. injection H1 as E. subst before. exact H3.
Defined.
